(** * Process scheduler: the registry handlers and the FCFS engine

    A shallow embedding of [src/ProcessSchedulerVisualization.jsx]: the
    React component state ([processes], [newProcess], [algorithm]), its
    handlers [addProcess], [removeProcess], [runSimulation], the engine
    [simulateFCFS], and the two JavaScript built-ins they rely on
    ([parseInt] and [Array.prototype.sort]).

    Numbers.  The numeric fields of a process come out of [parseInt],
    and the engine only adds, subtracts and takes maxima, so every
    number met is a double with an integer value, an infinity or [NaN].
    They are modelled as [number]; a sum or difference is the exact
    integer result rounded to the nearest double, ties to even,
    overflowing to an infinity, as IEEE 754 binary64 does.  [-0] is
    identified with [0]: nothing here tells them apart (no division,
    both are falsy, both print as 0).

    Strings are the UTF-8 bytes of the JavaScript strings. *)

From Stdlib Require Import ZArith String Ascii Lia.
From Stdlib Require Import Sorting.Sorted Sorting.Permutation.
From stdpp Require Import base tactics option list.

Local Open Scope string_scope.
Local Open Scope list_scope.
Local Open Scope Z_scope.

(** ** JavaScript numbers, as far as the component uses them *)

Inductive number : Type :=
| Num (z : Z)
| Infinity
| NegInfinity
| NaN.

(** An integer of at least 54 bits keeps its 53 leading bits, rounded
    to nearest, ties to even: with [e] the number of bits dropped,
    [q] the bits kept and [r] the bits dropped. *)
Definition round_to_53_bits (n : Z) : Z :=
  let e := Z.log2 n - 52 in
  let q := n / 2 ^ e in
  let r := n mod 2 ^ e in
  let half := 2 ^ (e - 1) in
  let q' := if (half <? r) || ((r =? half) && Z.odd q) then q + 1 else q in
  q' * 2 ^ e.

(** The double nearest to the integer [z]: [z] itself up to 2^53 in
    absolute value, the rounded integer beyond, an infinity from
    2^1024 - 2^970 on. *)
Definition to_number (z : Z) : number :=
  if Z.abs z <? 2 ^ 53 then Num z
  else
    let m := round_to_53_bits (Z.abs z) in
    if 2 ^ 1024 <=? m then (if z <? 0 then NegInfinity else Infinity)
    else Num (Z.sgn z * m).

Definition num_add (a b : number) : number :=
  match a, b with
  | NaN, _ | _, NaN => NaN
  | Num x, Num y => to_number (x + y)
  | Infinity, NegInfinity | NegInfinity, Infinity => NaN
  | Infinity, _ | _, Infinity => Infinity
  | NegInfinity, _ | _, NegInfinity => NegInfinity
  end.

Definition num_sub (a b : number) : number :=
  match a, b with
  | NaN, _ | _, NaN => NaN
  | Num x, Num y => to_number (x - y)
  | Infinity, Infinity | NegInfinity, NegInfinity => NaN
  | Infinity, _ | _, NegInfinity => Infinity
  | NegInfinity, _ | _, Infinity => NegInfinity
  end.

(** [Math.max(a, b)]: [NaN] as soon as one argument is [NaN]. *)
Definition Math_max (a b : number) : number :=
  match a, b with
  | NaN, _ | _, NaN => NaN
  | Infinity, _ | _, Infinity => Infinity
  | NegInfinity, x | x, NegInfinity => x
  | Num x, Num y => Num (Z.max x y)
  end.

(** A finite number. *)
Definition is_num (a : number) : Prop :=
  match a with Num _ => True | _ => False end.

#[global] Instance number_eq_dec : EqDecision number.
Proof. solve_decision. Defined.

(** *** [parseInt(string)] with no radix argument

    Leading white space is skipped, an optional sign is read, a [0x] or
    [0X] prefix switches to radix 16, and the longest prefix of digits
    is converted to the nearest double; no digit at all gives [NaN].
    (For a decimal numeral of more than 20 significant digits the
    language lets an engine zero the digits after the 20th before
    rounding; the model rounds the exact value.)

    White space is the language's [WhiteSpace] and [LineTerminator]:
    TAB, LF, VT, FF, CR, SP in one byte, U+00A0 in two, and U+1680,
    U+2000 to U+200A, U+2028, U+2029, U+202F, U+205F, U+3000, U+FEFF in
    three. *)

Definition is_white_space (c : ascii) : bool :=
  let n := nat_of_ascii c in
  ((9 <=? n) && (n <=? 13))%nat || (n =? 32)%nat.

Definition is_white_space2 (c1 c2 : ascii) : bool :=
  ((nat_of_ascii c1 =? 194) && (nat_of_ascii c2 =? 160))%nat.

Definition is_white_space3 (c1 c2 c3 : ascii) : bool :=
  let n1 := nat_of_ascii c1 in
  let n2 := nat_of_ascii c2 in
  let n3 := nat_of_ascii c3 in
  ((n1 =? 225) && (n2 =? 154) && (n3 =? 128)
   || (n1 =? 226) && (n2 =? 128)
      && ((128 <=? n3) && (n3 <=? 138) || (n3 =? 168) || (n3 =? 169)
          || (n3 =? 175))
   || (n1 =? 226) && (n2 =? 129) && (n3 =? 159)
   || (n1 =? 227) && (n2 =? 128) && (n3 =? 128)
   || (n1 =? 239) && (n2 =? 187) && (n3 =? 191))%nat.

Fixpoint trim_start (s : string) : string :=
  match s with
  | String c1 r1 =>
      if is_white_space c1 then trim_start r1
      else
        match r1 with
        | String c2 r2 =>
            if is_white_space2 c1 c2 then trim_start r2
            else
              match r2 with
              | String c3 r3 =>
                  if is_white_space3 c1 c2 c3 then trim_start r3 else s
              | EmptyString => s
              end
        | EmptyString => s
        end
  | EmptyString => EmptyString
  end.

Definition digit_value (radix : Z) (c : ascii) : option Z :=
  let n := Z.of_nat (nat_of_ascii c) in
  let v :=
    if (48 <=? n) && (n <=? 57) then Some (n - 48)
    else if (97 <=? n) && (n <=? 122) then Some (n - 87)
    else if (65 <=? n) && (n <=? 90) then Some (n - 55)
    else None in
  match v with
  | Some d => if d <? radix then Some d else None
  | None => None
  end.

(** The value of the longest prefix of radix-[radix] digits of [s];
    [acc] is [None] until a first digit has been read. *)
Fixpoint parse_digits (radix : Z) (acc : option Z) (s : string) : option Z :=
  match s with
  | String c r =>
      match digit_value radix c with
      | Some d => parse_digits radix (Some (default 0 acc * radix + d)) r
      | None => acc
      end
  | EmptyString => acc
  end.

Definition strip_sign (s : string) : Z * string :=
  match s with
  | String "-" r => (-1, r)
  | String "+" r => (1, r)
  | _ => (1, s)
  end.

Definition strip_prefix (s : string) : Z * string :=
  match s with
  | String "0" (String "x" r) => (16, r)
  | String "0" (String "X" r) => (16, r)
  | _ => (10, s)
  end.

Definition parseInt (s : string) : number :=
  let '(sign, s1) := strip_sign (trim_start s) in
  let '(radix, s2) := strip_prefix s1 in
  match parse_digits radix None s2 with
  | Some m => to_number (sign * m)
  | None => NaN
  end.

(** *** [Array.prototype.sort(comparefn)]

    The sort is stable, and the comparator's result [v] puts [a] after
    [b] exactly when [v > 0]; a [NaN] result counts as [+0].  The model
    is the stable insertion sort.  For a consistent comparator (which
    [a.arrivalTime - b.arrivalTime] is on numbers other than [NaN])
    every conforming engine returns this very list (lemma
    [Array_sort_unique] below); for an inconsistent one the language
    leaves the order to the engine, and the model is one possible
    choice. *)

Section ArraySort.
Context {A : Type} (comparefn : A -> A -> number).

Definition sorts_after (a b : A) : bool :=
  match comparefn a b with
  | Num v => 0 <? v
  | Infinity => true
  | NegInfinity => false
  | NaN => false
  end.

Fixpoint sort_insert (x : A) (l : list A) : list A :=
  match l with
  | [] => [x]
  | y :: l' => if sorts_after x y then y :: sort_insert x l' else x :: l
  end.

Definition Array_sort (l : list A) : list A := foldr sort_insert [] l.
End ArraySort.

(** ** The data of the component *)

(** [PROCESS_STATES] *)
Inductive ProcessState : Type := NEW | READY | RUNNING | WAITING | TERMINATED.

Definition PROCESS_STATES (s : ProcessState) : string :=
  match s with
  | NEW => "New"
  | READY => "Ready"
  | RUNNING => "Running"
  | WAITING => "Waiting"
  | TERMINATED => "Terminated"
  end.

(** [SCHEDULING_ALGORITHMS]: the selector kept in the component state is
    the display string itself. *)
Module SCHEDULING_ALGORITHMS.
Definition FCFS : string := "First-Come, First-Served (FCFS)".
Definition RR : string := "Round Robin (RR)".
Definition SJF : string := "Shortest Job First (SJF)".
Definition PRIORITY : string := "Priority Scheduling".
Definition values : list string := [FCFS; RR; SJF; PRIORITY].
End SCHEDULING_ALGORITHMS.

(** A process object.  The four metric properties are absent ([None])
    until a simulation attaches them. *)
Record Process : Type := mkProcess {
  id : string;
  arrivalTime : number;
  burstTime : number;
  priority : number;
  state : ProcessState;
  startTime : option number;
  completionTime : option number;
  turnAroundTime : option number;
  waitingTime : option number
}.

(** The form object [newProcess]: four strings typed by the user. *)
Module Form.
Record t : Type := mk {
  id : string;
  arrivalTime : string;
  burstTime : string;
  priority : string
}.
Definition empty : t := mk EmptyString EmptyString EmptyString EmptyString.
End Form.

(** The three [useState] cells. *)
Record Component : Type := mkComponent {
  processes : list Process;
  newProcess : Form.t;
  algorithm : string
}.

Definition initial : Component :=
  mkComponent [] Form.empty SCHEDULING_ALGORITHMS.FCFS.

(** What a handler did besides updating the state: it either returned
    quietly or raised an [alert] and returned. *)
Inductive Outcome : Type :=
| Returned
| Alerted (msg : string).

(** A string is falsy exactly when it is empty. *)
Definition truthy (s : string) : bool :=
  match s with EmptyString => false | _ => true end.

Definition setProcesses (c : Component) (ps : list Process) : Component :=
  mkComponent ps (newProcess c) (algorithm c).

Definition setNewProcess (c : Component) (f : Form.t) : Component :=
  mkComponent (processes c) f (algorithm c).

Definition setAlgorithm (c : Component) (a : string) : Component :=
  mkComponent (processes c) (newProcess c) a.

(** ** The registry handlers *)

(** [handleInputChange]: the computed key [[name]] overwrites one
    property of the form object.  A key other than the four field names
    would add a property that nothing reads. *)
Definition handleInputChange (name value : string) (c : Component)
  : Component :=
  let prev := newProcess c in
  setNewProcess c
    (if String.eqb name "id" then
       Form.mk value (Form.arrivalTime prev) (Form.burstTime prev)
               (Form.priority prev)
     else if String.eqb name "arrivalTime" then
       Form.mk (Form.id prev) value (Form.burstTime prev) (Form.priority prev)
     else if String.eqb name "burstTime" then
       Form.mk (Form.id prev) (Form.arrivalTime prev) value (Form.priority prev)
     else if String.eqb name "priority" then
       Form.mk (Form.id prev) (Form.arrivalTime prev) (Form.burstTime prev)
               value
     else prev).

Definition processToAdd (f : Form.t) : Process :=
  {| id := Form.id f;
     arrivalTime := parseInt (Form.arrivalTime f);
     burstTime := parseInt (Form.burstTime f);
     priority := if truthy (Form.priority f)
                 then parseInt (Form.priority f) else Num 0;
     state := NEW;
     startTime := None;
     completionTime := None;
     turnAroundTime := None;
     waitingTime := None |}.

(** [processes.some(p => p.id === x)] *)
Definition some_id (x : string) (ps : list Process) : bool :=
  existsb (fun p => String.eqb (id p) x) ps.

Definition addProcess (c : Component) : Outcome * Component :=
  let f := newProcess c in
  if negb (truthy (Form.id f)) || negb (truthy (Form.arrivalTime f))
     || negb (truthy (Form.burstTime f))
  then (Alerted "Please fill in all required fields", c)
  else
    let p := processToAdd f in
    if some_id (id p) (processes c)
    then (Alerted "A process with this ID already exists", c)
    else (Returned,
          setNewProcess (setProcesses c (processes c ++ [p])) Form.empty).

Definition removeProcess (x : string) (c : Component) : Component :=
  setProcesses c
    (List.filter (fun process => negb (String.eqb (id process) x))
                 (processes c)).

(** ** The engine *)

(** The comparator handed to [sort]. *)
Definition by_arrival (a b : Process) : number :=
  num_sub (arrivalTime a) (arrivalTime b).

(** One call of the [map] callback: it reads and advances the captured
    variable [currentTime] and builds a new object from the spread of
    [process] and the four metrics. *)
Definition annotate (currentTime : number) (process : Process)
  : number * Process :=
  let processStart := Math_max currentTime (arrivalTime process) in
  let currentTime := num_add processStart (burstTime process) in
  (currentTime,
   {| id := id process;
      arrivalTime := arrivalTime process;
      burstTime := burstTime process;
      priority := priority process;
      state := state process;
      startTime := Some processStart;
      completionTime := Some currentTime;
      turnAroundTime := Some (num_sub currentTime (arrivalTime process));
      waitingTime := Some (num_sub processStart (arrivalTime process)) |}).

Fixpoint map_annotate (currentTime : number) (l : list Process)
  : list Process :=
  match l with
  | [] => []
  | process :: l' =>
      let '(t, q) := annotate currentTime process in
      q :: map_annotate t l'
  end.

Definition simulateFCFS (ps : list Process) : list Process :=
  let sortedProcesses := Array_sort by_arrival ps in
  map_annotate (Num 0) sortedProcesses.

Definition runSimulation (c : Component) : Outcome * Component :=
  if String.eqb (algorithm c) SCHEDULING_ALGORITHMS.FCFS
  then (Returned, setProcesses c (simulateFCFS (processes c)))
  else (Alerted "Selected algorithm not implemented yet", c).

(** The "Run Simulation" button: [disabled] while the list is empty, in
    which case a click never reaches the handler. *)
Definition runButton_disabled (c : Component) : bool :=
  (length (processes c) =? 0)%nat.

Definition clickRunSimulation (c : Component) : option (Outcome * Component) :=
  if runButton_disabled c then None else Some (runSimulation c).

(** ** The user's interaction with the component

    One event per handler invocation; React re-renders between two
    events, so each handler sees the state left by the previous one. *)
Inductive Event : Type :=
| Input (name value : string)
| ClickAdd
| ClickRemove (x : string)
| SelectAlgorithm (a : string)
| ClickRun.

Definition handle (c : Component) (e : Event) : Component :=
  match e with
  | Input name value => handleInputChange name value c
  | ClickAdd => snd (addProcess c)
  | ClickRemove x => removeProcess x c
  | SelectAlgorithm a => setAlgorithm c a
  | ClickRun =>
      match clickRunSimulation c with
      | Some (_, c') => c'
      | None => c
      end
  end.

Definition session (evs : list Event) : Component := foldl handle initial evs.

(** Typing a whole record into the form. *)
Definition fill (x a b pr : string) : list Event :=
  [Input "id" x; Input "arrivalTime" a; Input "burstTime" b;
   Input "priority" pr].

(** ** Vocabulary of the statements *)

Definition P (i : string) (a b : Z) : Process :=
  mkProcess i (Num a) (Num b) (Num 0) NEW None None None None.

Definition num_le (a b : number) : Prop :=
  match a, b with
  | Num x, Num y => x <= y
  | _, _ => False
  end.

(** Two objects with the same own properties apart from the metrics. *)
Definition same_inputs (p q : Process) : Prop :=
  id q = id p /\ arrivalTime q = arrivalTime p /\ burstTime q = burstTime p
  /\ priority q = priority p /\ state q = state p.

Definition arrival_le (a b : Process) : Prop :=
  num_le (arrivalTime a) (arrivalTime b).

Definition arrival_is (t : number) (p : Process) : bool :=
  bool_decide (arrivalTime p = t).

Definition has_arrival (p : Process) : Prop := is_num (arrivalTime p).

Definition has_times (p : Process) : Prop :=
  is_num (arrivalTime p) /\ is_num (burstTime p).

(** The value of [currentTime] when the callback is entered for the
    element of index [i], read off the output list [out]: [start] for
    the first element, the [completionTime] of the previous output
    object afterwards. *)
Definition clock_before (start : number) (out : list Process) (i : nat)
  : option number :=
  match i with
  | O => Some start
  | S j => out !! j ≫= completionTime
  end.

(** Numbers in, numbers out. *)
Definition metrics_derived (q : Process) : Prop :=
  exists a b s c ta w,
    arrivalTime q = Num a /\ burstTime q = Num b
    /\ startTime q = Some (Num s) /\ completionTime q = Some (Num c)
    /\ turnAroundTime q = Some (Num ta) /\ waitingTime q = Some (Num w)
    /\ c = s + b /\ ta = c - a /\ w = ta - b /\ w = s - a /\ a <= s.

(** What the spec asks of a process before it is simulated. *)
Definition valid_input (p : Process) : Prop :=
  exists a b, arrivalTime p = Num a /\ burstTime p = Num b /\ 0 <= a /\ 0 < b.

Definition nonneg_metrics (q : Process) : Prop :=
  exists a b c ta w,
    arrivalTime q = Num a /\ burstTime q = Num b
    /\ completionTime q = Some (Num c)
    /\ turnAroundTime q = Some (Num ta) /\ waitingTime q = Some (Num w)
    /\ 0 <= w /\ b <= ta /\ a <= c.

(** The integer sums of a run are exact as long as they stay within
    2^53 in absolute value (one more than [Number.MAX_SAFE_INTEGER]):
    up to there every integer is a double. *)
Definition safe_integer : Z := 2 ^ 53.

(** The room the times of a list can take on the time axis: the sum of
    the absolute values of all arrival and burst times. *)
Definition magnitude (p : Process) : Z :=
  match arrivalTime p, burstTime p with
  | Num a, Num b => Z.abs a + Z.abs b
  | _, _ => 0
  end.

Definition total_time (ps : list Process) : Z :=
  foldr (fun p s => magnitude p + s) 0 ps.

(** The start and the completion of [q] are exact sums, its two other
    metrics are the rounded differences, and all of them lie within
    [bound]. *)
Definition walked_within (bound : Z) (q : Process) : Prop :=
  exists a b s c,
    arrivalTime q = Num a /\ burstTime q = Num b
    /\ startTime q = Some (Num s) /\ completionTime q = Some (Num c)
    /\ turnAroundTime q = Some (to_number (c - a))
    /\ waitingTime q = Some (to_number (s - a))
    /\ c = s + b /\ a <= s
    /\ Z.abs a <= bound /\ Z.abs s <= bound /\ Z.abs c <= bound
    /\ Z.abs (c - a) <= bound /\ Z.abs (s - a) <= bound.

(** What [addProcess] does guarantee of a stored process [p], in the
    course of the session [evs]: one of the clicks on Add of the
    session succeeded with the id, the arrival time and the burst time
    fields of the form non-empty, and [p] has the id typed there and
    the times [parseInt] read from these two fields. *)
Definition added_in (evs : list Event) (p : Process) : Prop :=
  exists before after,
    evs = before ++ ClickAdd :: after
    /\ let f := newProcess (session before) in
       fst (addProcess (session before)) = Returned
       /\ truthy (Form.id f) = true
       /\ truthy (Form.arrivalTime f) = true
       /\ truthy (Form.burstTime f) = true
       /\ id p = Form.id f
       /\ arrivalTime p = parseInt (Form.arrivalTime f)
       /\ burstTime p = parseInt (Form.burstTime f).

Definition ids (ps : list Process) : list string := map id ps.

Definition required_filled (f : Form.t) : bool :=
  truthy (Form.id f) && truthy (Form.arrivalTime f)
  && truthy (Form.burstTime f).

(** ** The engine over an explicit store

    [simulateFCFS] spreads the array before sorting it and spreads each
    object before adding the metrics.  To see what that protects, the
    same function is written here over a store in which arrays and
    objects live at addresses and [sort] overwrites the array it is
    called on.  A computation fails ([None]) when it follows a reference
    to nothing, which the language itself rules out. *)
Module Store.
(** Addresses. *)
Abbreviation loc := nat.

Record heap : Type := mkHeap {
  objects : list Process;
  arrays : list (list loc)
}.

Definition M (A : Type) : Type := heap -> option (A * heap).

#[global] Instance M_ret : MRet M := fun A x h => Some (x, h).
#[global] Instance M_bind : MBind M := fun A B f m h =>
  match m h with
  | Some (x, h') => f x h'
  | None => None
  end.

Definition get_object (l : loc) : M Process :=
  fun h => (fun p => (p, h)) <$> objects h !! l.

(** An object literal. *)
Definition new_object (p : Process) : M loc :=
  fun h => Some (length (objects h), mkHeap (objects h ++ [p]) (arrays h)).

Definition get_array (a : loc) : M (list loc) :=
  fun h => (fun ls => (ls, h)) <$> arrays h !! a.

(** An array literal. *)
Definition new_array (ls : list loc) : M loc :=
  fun h => Some (length (arrays h), mkHeap (objects h) (arrays h ++ [ls])).

Definition set_array (a : loc) (ls : list loc) : M unit :=
  fun h =>
    if decide (a < length (arrays h))%nat
    then Some ((), mkHeap (objects h) (<[a:=ls]> (arrays h)))
    else None.

(** The objects behind a list of references. *)
Definition get_objects (ls : list loc) : M (list Process) :=
  fun h => (fun ps => (ps, h)) <$> mapM (fun l => objects h !! l) ls.

(** [a.sort((x, y) => x.arrivalTime - y.arrivalTime)]: the elements
    are references, the comparator reads through them, and the array
    at [a] is overwritten with the sorted references. *)
Definition sort_by_arrival (a : loc) : M unit :=
  ls ← get_array a;
  ps ← get_objects ls;
  set_array a
    (map fst
       (Array_sort (fun x y : loc * Process => by_arrival (snd x) (snd y))
                   (zip ls ps))).

(** [a.map(callback)], the callback allocating one object per
    element; the new array is allocated by the caller below. *)
Fixpoint map_annotate (currentTime : number) (ls : list loc)
  : M (list loc) :=
  match ls with
  | [] => mret []
  | l :: ls' =>
      process ← get_object l;
      let '(t, q) := annotate currentTime process in
      l' ← new_object q;
      out ← map_annotate t ls';
      mret (l' :: out)
  end.

Definition simulateFCFS (processes : loc) : M loc :=
  ls ← get_array processes;
  sortedProcesses ← new_array ls;
  sort_by_arrival sortedProcesses;;
  sorted ← get_array sortedProcesses;
  out ← map_annotate (Num 0) sorted;
  new_array out.

(** The list of objects an array denotes. *)
Definition read_array (a : loc) (h : heap) : option (list Process) :=
  ls ← arrays h !! a; mapM (fun l => objects h !! l) ls.
End Store.

(** The references [ls] lead to the objects [ps], in this order. *)
Definition points_to (h : Store.heap) (ls : list Store.loc)
    (ps : list Process) : Prop :=
  Forall2 (fun l p => Store.objects h !! l = Some p) ls ps.

(** ** The process list as rendered

    The part of the JSX that depends on the processes: the placeholder
    or the grid of cards, each card keyed by the process id, with the
    id its Remove button passes to [removeProcess], the lines it always
    shows (a stored process always has a [priority], so that line is
    among them), and the block guarded by
    [process.completionTime && ...]. *)

(** What React shows for [process.completionTime && (<>...</>)]:
    nothing when the property is absent, the number itself when it is
    a falsy number ([0] or [NaN]), the three metric lines otherwise
    (an infinity is truthy). *)
Inductive MetricsBlock : Type :=
| Nothing
| Bare (n : number)
| MetricLines (completion turnAround waiting : option number).

Definition metricsBlock (process : Process) : MetricsBlock :=
  match completionTime process with
  | None => Nothing
  | Some NaN => Bare NaN
  | Some (Num z) =>
      if z =? 0 then Bare (Num z)
      else MetricLines (completionTime process) (turnAroundTime process)
                       (waitingTime process)
  | Some _ =>
      MetricLines (completionTime process) (turnAroundTime process)
                  (waitingTime process)
  end.

Record CardView : Type := mkCard {
  key : string;
  removes : string;
  heading : string;
  arrivalLine : number;
  burstLine : number;
  priorityLine : number;
  metrics : MetricsBlock
}.

Definition renderCard (process : Process) : CardView :=
  {| key := id process;
     removes := id process;
     heading := id process;
     arrivalLine := arrivalTime process;
     burstLine := burstTime process;
     priorityLine := priority process;
     metrics := metricsBlock process |}.

Inductive ProcessListView : Type :=
| NoProcessesYet
| Grid (cards : list CardView).

Definition renderProcessList (c : Component) : ProcessListView :=
  if (length (processes c) =? 0)%nat then NoProcessesYet
  else Grid (map renderCard (processes c)).

(** The options of the algorithm [select] and its current value. *)
Definition selectOptions : list string := SCHEDULING_ALGORITHMS.values.

(** ** More vocabulary *)

(** The selector a session ends with: the value of its last
    [SelectAlgorithm] event, the initial FCFS when there is none. *)
Definition last_selected (evs : list Event) : string :=
  foldl (fun a e => match e with SelectAlgorithm x => x | _ => a end)
        SCHEDULING_ALGORITHMS.FCFS evs.

Definition picks_option (e : Event) : Prop :=
  match e with
  | SelectAlgorithm a => In a selectOptions
  | _ => True
  end.

(** A process carries none of the four metrics, or all four, computed
    from one start time by the arithmetic of the callback. *)
Definition metrics_consistent (p : Process) : Prop :=
  (startTime p = None /\ completionTime p = None
   /\ turnAroundTime p = None /\ waitingTime p = None)
  \/ exists s,
       startTime p = Some s
       /\ completionTime p = Some (num_add s (burstTime p))
       /\ turnAroundTime p
          = Some (num_sub (num_add s (burstTime p)) (arrivalTime p))
       /\ waitingTime p = Some (num_sub s (arrivalTime p)).

(** Both times are numbers and the burst is not negative. *)
Definition runnable (p : Process) : Prop :=
  exists a b, arrivalTime p = Num a /\ burstTime p = Num b /\ 0 <= b.

(** The time slice [startTime, completionTime) of [q] has the length of
    its burst. *)
Definition slice_is_burst (q : Process) : Prop :=
  exists s c b,
    startTime q = Some (Num s) /\ completionTime q = Some (Num c)
    /\ burstTime q = Num b /\ c - s = b.

(** The slice of [q1] is over when the slice of [q2] begins. *)
Definition runs_before (q1 q2 : Process) : Prop :=
  exists c s,
    completionTime q1 = Some (Num c) /\ startTime q2 = Some (Num s) /\ c <= s.

(** A number above 0: a positive integer or the positive infinity. *)
Definition is_positive (n : number) : Prop :=
  match n with
  | Num z => 0 < z
  | Infinity => True
  | _ => False
  end.

(** Decimal numerals: the digits, most significant first, their text
    and their value. *)
Definition digit_char (d : nat) : ascii := ascii_of_nat (48 + d).

Definition numeral (ds : list nat) : string :=
  foldr (fun d s => String (digit_char d) s) EmptyString ds.

Definition numeral_value (ds : list nat) : Z :=
  foldl (fun acc d => acc * 10 + Z.of_nat d) 0 ds.

(** What may follow the digits in the text of a number: nothing, or a
    fractional part. *)
Definition ends_numeral (rest : string) : Prop :=
  rest = EmptyString \/ exists r, rest = String "." r.

(** ** Sanity checks on concrete inputs *)

Example parseInt_examples :
  parseInt "12" = Num 12 /\ parseInt " -7x" = Num (-7) /\
  parseInt "0" = Num 0 /\ parseInt ".5" = NaN /\ parseInt "1.5" = Num 1 /\
  parseInt "0x1f" = Num 31 /\ parseInt EmptyString = NaN /\ parseInt "1e3" = Num 1.
Proof. repeat split; reflexivity. Qed.

Example to_number_examples :
  to_number (2 ^ 53 + 1) = Num (2 ^ 53)
  /\ to_number (2 ^ 53 + 3) = Num (2 ^ 53 + 4)
  /\ to_number (- 2 ^ 53 - 1) = Num (- 2 ^ 53)
  /\ to_number (2 ^ 1024 - 2 ^ 970 - 1) = Num (2 ^ 1024 - 2 ^ 971)
  /\ to_number (2 ^ 1024 - 2 ^ 970) = Infinity
  /\ num_sub (to_number (2 ^ 1023)) (to_number (- 2 ^ 1023)) = Infinity
  /\ num_sub Infinity Infinity = NaN.
Proof. repeat split; by vm_compute. Qed.

Example parseInt_rounds :
  parseInt "9007199254740993" = Num 9007199254740992
  /\ parseInt (String (ascii_of_nat 194) (String (ascii_of_nat 160) "12"))
     = Num 12
  /\ parseInt (String (ascii_of_nat 226)
                 (String (ascii_of_nat 128) (String (ascii_of_nat 168) "-4")))
     = Num (-4).
Proof. repeat split; by vm_compute. Qed.

Example scenario1 :
  map (fun q => (id q, startTime q, completionTime q, waitingTime q))
      (simulateFCFS [P "P3" 2 8; P "P1" 0 5; P "P2" 1 3])
  = [("P1", Some (Num 0), Some (Num 5), Some (Num 0));
     ("P2", Some (Num 5), Some (Num 8), Some (Num 4));
     ("P3", Some (Num 8), Some (Num 16), Some (Num 6))].
Proof. reflexivity. Qed.

Example session_example :
  processes (session (fill "P1" "0" "5" EmptyString ++ [ClickAdd]
                      ++ fill "P1" "3" "4" EmptyString ++ [ClickAdd]
                      ++ fill "P2" "1" "3" "2" ++ [ClickAdd]))
  = [P "P1" 0 5; mkProcess "P2" (Num 1) (Num 3) (Num 2) NEW None None None None].
Proof. reflexivity. Qed.

(** ** Facts about the built-ins *)

Lemma is_num_inv a : is_num a -> exists z, a = Num z.
Proof. destruct a; try contradiction. eauto. Qed.

(** Rounding does nothing up to 2^53. *)
Lemma to_number_exact z : Z.abs z <= 2 ^ 53 -> to_number z = Num z.
Proof.
  intros H. unfold to_number.
  destruct (Z.ltb_spec (Z.abs z) (2 ^ 53)) as [|Hge]; [done|].
  assert (z = 2 ^ 53 \/ z = - 2 ^ 53) as [->| ->] by lia; reflexivity.
Qed.

Lemma round_to_53_bits_pos n : 2 ^ 53 <= n -> 0 < round_to_53_bits n.
Proof.
  intros Hn. unfold round_to_53_bits.
  assert (0 < n) as Hpos by lia.
  assert (53 <= Z.log2 n) as Hlog by (by apply Z.log2_le_pow2).
  destruct (Z.log2_spec n Hpos) as [Hlo _].
  set (e := Z.log2 n - 52) in *.
  assert (0 < 2 ^ e) as He by (apply Z.pow_pos_nonneg; lia).
  assert (2 ^ e <= n) as Hen.
  { etrans; [|exact Hlo]. apply Z.pow_le_mono_r; lia. }
  assert (1 <= n / 2 ^ e) as Hq.
  { apply Z.div_le_lower_bound; lia. }
  destruct (_ || _); apply Z.mul_pos_pos; lia.
Qed.

(** Rounding keeps the sign. *)
Lemma to_number_sign z :
  match to_number z with
  | Num m => Z.sgn m = Z.sgn z
  | Infinity => 0 < z
  | NegInfinity => z < 0
  | NaN => False
  end.
Proof.
  unfold to_number.
  destruct (Z.ltb_spec (Z.abs z) (2 ^ 53)) as [|Hge]; [done|].
  pose proof (round_to_53_bits_pos (Z.abs z) Hge) as Hm.
  assert (0 < 2 ^ 53) by done.
  destruct (2 ^ 1024 <=? _).
  - destruct (Z.ltb_spec z 0); lia.
  - destruct (Z.sgn_spec z) as [[? ->]|[[? ->]|[? ->]]]; lia.
Qed.

Section ArraySortFacts.
Context {A : Type} (comparefn : A -> A -> number).

Lemma sort_insert_perm x l : sort_insert comparefn x l ≡ₚ x :: l.
Proof.
  induction l as [|y l IH]; simpl; [done|].
  destruct (sorts_after comparefn x y); [|done].
  rewrite IH. apply Permutation_swap.
Qed.

Lemma Array_sort_perm l : Array_sort comparefn l ≡ₚ l.
Proof.
  induction l as [|x l IH]; simpl; [done|].
  rewrite sort_insert_perm. by constructor.
Qed.

Lemma Array_sort_length l : length (Array_sort comparefn l) = length l.
Proof. apply Permutation_length, Array_sort_perm. Qed.

Lemma Array_sort_Forall (Q : A -> Prop) l :
  Forall Q l -> Forall Q (Array_sort comparefn l).
Proof. intros H. by rewrite Array_sort_perm. Qed.

(** An element that sorts after nothing in front of it stays put. *)
Lemma sort_insert_head x l :
  Forall (fun y => sorts_after comparefn x y = false) l ->
  sort_insert comparefn x l = x :: l.
Proof. destruct 1 as [|y l Hy _]; simpl; [done|]. by rewrite Hy. Qed.

(** Filtering commutes with the insertion when the inserted element
    never overtakes an element that passes the filter with it. *)
Lemma filter_sort_insert (f : A -> bool) x l :
  (forall y, f x = true -> f y = true -> sorts_after comparefn x y = false) ->
  List.filter f (sort_insert comparefn x l) = List.filter f (x :: l).
Proof.
  intros Hxy. induction l as [|y l IH]; [done|].
  cbn [sort_insert]. destruct (sorts_after comparefn x y) eqn:E; [|done].
  cbn [List.filter] in *. rewrite IH.
  destruct (f x) eqn:Ex, (f y) eqn:Ey; try done.
  rewrite Hxy in E; done.
Qed.
End ArraySortFacts.

(** ** Facts about the engine *)

Lemma sorts_after_by_arrival a b x y :
  arrivalTime a = Num x -> arrivalTime b = Num y ->
  sorts_after by_arrival a b = (y <? x).
Proof.
  intros Ha Hb. unfold sorts_after, by_arrival. rewrite Ha, Hb.
  cbn [num_sub]. pose proof (to_number_sign (x - y)) as Hs.
  destruct (to_number (x - y)) as [m| | |]; try done.
  - apply eq_true_iff_eq. rewrite !Z.ltb_lt.
    destruct (Z.sgn_spec m) as [[? Hm]|[[? Hm]|[? Hm]]], (Z.sgn_spec (x - y))
      as [[? Hz]|[[? Hz]|[? Hz]]]; lia.
  - symmetry. apply Z.ltb_lt. lia.
  - symmetry. apply Z.ltb_ge. lia.
Qed.

Lemma sort_insert_sorted x l :
  has_arrival x -> Forall has_arrival l ->
  StronglySorted arrival_le l ->
  StronglySorted arrival_le (sort_insert by_arrival x l).
Proof.
  intros [a Ha]%is_num_inv Hl Hs.
  induction Hs as [|y l Hs IH Hy]; simpl.
  - repeat constructor.
  - apply Forall_cons in Hl as [[b Hb]%is_num_inv Hl].
    rewrite (sorts_after_by_arrival x y a b) by done.
    destruct (Z.ltb_spec b a) as [Hlt|Hge].
    + constructor; [by apply IH|].
      rewrite sort_insert_perm. constructor; [|done].
      unfold arrival_le. rewrite Ha, Hb. simpl. lia.
    + constructor; [by constructor|].
      assert (arrival_le x y) as Hxy
        by (unfold arrival_le; rewrite Ha, Hb; simpl; lia).
      constructor; [done|].
      eapply Forall_impl; [exact Hy|].
      intros z Hz. unfold arrival_le in *. rewrite Ha, Hb in *.
      destruct (arrivalTime z); simpl in *; try done. lia.
Qed.

Lemma Array_sort_sorted l :
  Forall has_arrival l -> StronglySorted arrival_le (Array_sort by_arrival l).
Proof.
  induction 1 as [|x l Hx Hl IH]; simpl; [constructor|].
  apply sort_insert_sorted; [done| |done].
  by apply Array_sort_Forall.
Qed.

Lemma Array_sort_stable t l :
  Forall has_arrival l ->
  List.filter (arrival_is t) (Array_sort by_arrival l)
  = List.filter (arrival_is t) l.
Proof.
  induction 1 as [|x l Hx Hl IH]; [done|].
  cbn [Array_sort foldr]. rewrite filter_sort_insert.
  - cbn [List.filter]. fold (Array_sort by_arrival l). by rewrite IH.
  - intros y Ex Ey. unfold arrival_is in *.
    apply bool_decide_eq_true in Ex, Ey.
    apply is_num_inv in Hx as [a Ha].
    rewrite (sorts_after_by_arrival x y a a); [apply Z.ltb_irrefl|done|congruence].
Qed.

Lemma Array_sort_id l :
  StronglySorted arrival_le l -> Array_sort by_arrival l = l.
Proof.
  induction 1 as [|x l Hs IH Hx]; [done|].
  cbn [Array_sort foldr]. fold (Array_sort by_arrival l). rewrite IH.
  apply sort_insert_head. eapply Forall_impl; [exact Hx|].
  intros y Hxy. unfold arrival_le, num_le in Hxy.
  destruct (arrivalTime x) as [a| | |] eqn:Ha; try done.
  destruct (arrivalTime y) as [b| | |] eqn:Hb; try done.
  rewrite (sorts_after_by_arrival x y a b) by done.
  apply Z.ltb_ge. lia.
Qed.

(** An ascending list is determined by its sublists of equal arrival:
    whatever stable sorting algorithm an engine uses, on arrival times
    that are numbers it returns the list [Array_sort] returns. *)
Lemma sorted_stable_unique l1 l2 :
  StronglySorted arrival_le l1 -> StronglySorted arrival_le l2 ->
  (forall t, List.filter (arrival_is t) l1 = List.filter (arrival_is t) l2) ->
  l1 = l2.
Proof.
  assert (forall p, arrival_is (arrivalTime p) p = true) as Hrefl
    by (intros p; by apply bool_decide_eq_true_2).
  assert (forall p q, arrivalTime q <> arrivalTime p ->
                      arrival_is (arrivalTime p) q = false) as Hne
    by (intros p q Hpq; by apply bool_decide_eq_false_2).
  intros H1. revert l2.
  induction H1 as [|x l1 Hs1 IH Hx]; intros l2 H2 Hf.
  - destruct l2 as [|y l2]; [done|].
    specialize (Hf (arrivalTime y)). cbn [List.filter] in Hf.
    by rewrite Hrefl in Hf.
  - destruct H2 as [|y l2 Hs2 Hy].
    { specialize (Hf (arrivalTime x)). cbn [List.filter] in Hf.
      by rewrite Hrefl in Hf. }
    destruct (decide (arrivalTime y = arrivalTime x)) as [E|E].
    + assert (x = y) as <-.
      { specialize (Hf (arrivalTime x)). cbn [List.filter] in Hf.
        rewrite Hrefl, <- E, Hrefl in Hf. congruence. }
      f_equal. apply IH; [done|]. intros t. specialize (Hf t).
      cbn [List.filter] in Hf. destruct (arrival_is t x); congruence.
    + exfalso.
      assert (In y l1) as Hy1.
      { specialize (Hf (arrivalTime y)). cbn [List.filter] in Hf.
        rewrite Hrefl, (Hne y x) in Hf by congruence.
        eapply proj1, List.filter_In. rewrite Hf. by left. }
      assert (In x l2) as Hx2.
      { specialize (Hf (arrivalTime x)). cbn [List.filter] in Hf.
        rewrite Hrefl, (Hne x y) in Hf by done.
        eapply proj1, List.filter_In. rewrite <- Hf. by left. }
      rewrite Forall_forall in Hx, Hy.
      apply list_elem_of_In, Hx in Hy1. apply list_elem_of_In, Hy in Hx2.
      unfold arrival_le, num_le in *.
      destruct (arrivalTime x), (arrivalTime y); try done.
      apply E. f_equal. lia.
Qed.

Lemma Array_sort_unique l l' :
  Forall has_arrival l ->
  StronglySorted arrival_le l' ->
  (forall t, List.filter (arrival_is t) l' = List.filter (arrival_is t) l) ->
  l' = Array_sort by_arrival l.
Proof.
  intros Hl Hs Hf. apply sorted_stable_unique; [done| |].
  - by apply Array_sort_sorted.
  - intros t. by rewrite Array_sort_stable.
Qed.

Lemma annotate_same_inputs t p : same_inputs p (snd (annotate t p)).
Proof. by repeat split. Qed.

Lemma map_annotate_length t l : length (map_annotate t l) = length l.
Proof.
  revert t. induction l as [|p l IH]; intros t; simpl; [done|].
  by rewrite IH.
Qed.

Lemma map_annotate_same_inputs t l : Forall2 same_inputs l (map_annotate t l).
Proof.
  revert t. induction l as [|p l IH]; intros t; simpl; constructor.
  - apply annotate_same_inputs.
  - apply IH.
Qed.

(** The callback reads nothing but [arrivalTime] and [burstTime] and
    copies the other properties, so objects that differ in their
    metrics only are annotated alike. *)
Lemma annotate_ext t p p' : same_inputs p p' -> annotate t p' = annotate t p.
Proof.
  intros (Hi & Ha & Hb & Hp & Hs). unfold annotate.
  by rewrite Hi, Ha, Hb, Hp, Hs.
Qed.

Lemma map_annotate_ext t l l' :
  Forall2 same_inputs l l' -> map_annotate t l' = map_annotate t l.
Proof.
  intros H. revert t. induction H as [|p p' l l' Hp _ IH]; intros t; [done|].
  cbn [map_annotate]. rewrite (annotate_ext t p p' Hp).
  destruct (annotate t p) as [t' q]. by rewrite IH.
Qed.

Lemma same_inputs_arrival_le l l' :
  Forall2 same_inputs l l' ->
  StronglySorted arrival_le l -> StronglySorted arrival_le l'.
Proof.
  induction 1 as [|p p' l l' Hp Hl IH]; [done|].
  intros [Hs Hall]%StronglySorted_inv. constructor; [by apply IH|].
  destruct Hp as (_ & Ha & _).
  clear IH Hs. induction Hl as [|q q' l l' Hq _ IH]; [done|].
  apply Forall_cons in Hall as [Hpq Hall]. constructor; [|by apply IH].
  destruct Hq as (_ & Ha' & _). unfold arrival_le in *. by rewrite Ha, Ha'.
Qed.

Lemma map_annotate_lookup start l i p :
  l !! i = Some p ->
  exists currentTime,
    clock_before start (map_annotate start l) i = Some currentTime
    /\ map_annotate start l !! i = Some (snd (annotate currentTime p)).
Proof.
  revert start i. induction l as [|p0 l IH]; intros start i Hi; [done|].
  destruct i as [|i]; simpl in *.
  - injection Hi as ->. by exists start.
  - destruct (IH (fst (annotate start p0)) i Hi) as (t & Ht & Hq).
    exists t. split; [|done].
    destruct i as [|i]; simpl in *; [by injection Ht as <-|done].
Qed.

Lemma total_time_nonneg l : 0 <= total_time l.
Proof.
  induction l as [|p l IH]; simpl; [done|].
  unfold magnitude. destruct (arrivalTime p), (burstTime p); lia.
Qed.

Lemma total_time_perm l l' : l ≡ₚ l' -> total_time l = total_time l'.
Proof. induction 1; simpl; lia. Qed.

Lemma walked_within_mono b1 b2 q :
  b1 <= b2 -> walked_within b1 q -> walked_within b2 q.
Proof.
  intros Hb (a & b & s & c & H1 & H2 & H3 & H4 & H5 & H6 & H7 & H8
                & B1 & B2 & B3 & B4 & B5).
  exists a, b, s, c. repeat split; try done; lia.
Qed.

(** As long as the clock and all the times still to come fit within
    2^53, the walk computes its sums exactly. *)
Lemma map_annotate_exact t l :
  Forall has_times l -> Z.abs t + total_time l <= 2 ^ 53 ->
  Forall (walked_within (Z.abs t + total_time l)) (map_annotate (Num t) l).
Proof.
  intros H. revert t. induction H as [|p l [Ha Hb] _ IH]; intros t Hbound;
    [done|].
  apply is_num_inv in Ha as [a Ha], Hb as [b Hb].
  pose proof (total_time_nonneg l) as Hl.
  cbn [total_time foldr] in *. fold (total_time l) in *.
  unfold magnitude in *. rewrite Ha, Hb in *.
  cbn [map_annotate annotate]. rewrite Ha, Hb. cbn [Math_max num_add num_sub].
  rewrite (to_number_exact (Z.max t a + b)) by lia.
  constructor.
  - exists a, b, (Z.max t a), (Z.max t a + b). simpl.
    repeat split; try done; lia.
  - eapply Forall_impl; [apply IH; lia|].
    intros q. apply walked_within_mono. lia.
Qed.

Lemma walked_within_metrics bound q :
  bound <= 2 ^ 53 -> walked_within bound q -> metrics_derived q.
Proof.
  intros Hb (a & b & s & c & H1 & H2 & H3 & H4 & H5 & H6 & -> & H8
                & B1 & B2 & B3 & B4 & B5).
  exists a, b, s, (s + b), (s + b - a), (s - a).
  rewrite H5, H6, !to_number_exact by lia. repeat split; try done; lia.
Qed.

Lemma simulateFCFS_exact ps :
  Forall has_times ps -> total_time ps <= 2 ^ 53 ->
  Forall (walked_within (total_time ps)) (simulateFCFS ps).
Proof.
  intros H Hb. unfold simulateFCFS.
  rewrite <- (total_time_perm _ _ (Array_sort_perm by_arrival ps)) in *.
  apply (map_annotate_exact 0); [by apply Array_sort_Forall | done].
Qed.

Lemma simulateFCFS_metrics ps :
  Forall has_times ps -> total_time ps <= 2 ^ 53 ->
  Forall metrics_derived (simulateFCFS ps).
Proof.
  intros H Hb.
  eapply Forall_impl; [by apply simulateFCFS_exact|].
  intros q. by apply walked_within_metrics.
Qed.

Lemma valid_input_has_times ps :
  Forall valid_input ps -> Forall has_times ps.
Proof.
  intros H. eapply Forall_impl; [exact H|].
  intros p (a & b & Ha & Hb & _). unfold has_times. by rewrite Ha, Hb.
Qed.

Lemma simulateFCFS_sorted ps :
  Forall has_arrival ps -> StronglySorted arrival_le (simulateFCFS ps).
Proof.
  intros H. eapply same_inputs_arrival_le; [apply map_annotate_same_inputs|].
  by apply Array_sort_sorted.
Qed.

Lemma simulateFCFS_idempotent ps :
  Forall has_arrival ps -> simulateFCFS (simulateFCFS ps) = simulateFCFS ps.
Proof.
  intros H. unfold simulateFCFS at 1.
  rewrite Array_sort_id by by apply simulateFCFS_sorted.
  apply map_annotate_ext, map_annotate_same_inputs.
Qed.

Lemma runSimulation_Returned c c' :
  runSimulation c = (Returned, c') ->
  algorithm c = SCHEDULING_ALGORITHMS.FCFS
  /\ c' = setProcesses c (simulateFCFS (processes c)).
Proof.
  unfold runSimulation.
  destruct (String.eqb_spec (algorithm c) SCHEDULING_ALGORITHMS.FCFS);
    [|done].
  by intros [= <-].
Qed.

Lemma runSimulation_FCFS c :
  algorithm c = SCHEDULING_ALGORITHMS.FCFS ->
  runSimulation c = (Returned, setProcesses c (simulateFCFS (processes c))).
Proof. intros H. unfold runSimulation. by rewrite H. Qed.

Lemma runSimulation_other c :
  algorithm c <> SCHEDULING_ALGORITHMS.FCFS ->
  runSimulation c = (Alerted "Selected algorithm not implemented yet", c).
Proof.
  intros H. unfold runSimulation.
  by destruct (String.eqb_spec (algorithm c) SCHEDULING_ALGORITHMS.FCFS).
Qed.

(** ** The FCFS engine *)

(** C1.  FCFS first sorts the processes by [arrivalTime], ascending and
    stably (the sorted list is a permutation of the input, is in
    ascending order of arrival, and keeps processes of equal arrival in
    their original order, which determines it), and then walks the
    sorted list from
    [currentTime = 0]: the object of index [i] gets
    [startTime = max(currentTime, arrivalTime)] and
    [completionTime = startTime + burstTime], where [currentTime] is 0
    for the first object and the previous [completionTime] after that.
    Arrival times are numbers, as the data model has them. *)
Theorem C1_fcfs_sorts_then_walks (ps : list Process) :
  Forall has_arrival ps ->
  let sorted := Array_sort by_arrival ps in
  let out := simulateFCFS ps in
  sorted ≡ₚ ps
  /\ StronglySorted arrival_le sorted
  /\ (forall t, List.filter (arrival_is t) sorted = List.filter (arrival_is t) ps)
  /\ (forall l, StronglySorted arrival_le l ->
        (forall t, List.filter (arrival_is t) l = List.filter (arrival_is t) ps) ->
        l = sorted)
  /\ length out = length ps
  /\ forall i p, sorted !! i = Some p ->
       exists q currentTime,
         out !! i = Some q
         /\ clock_before (Num 0) out i = Some currentTime
         /\ same_inputs p q
         /\ startTime q = Some (Math_max currentTime (arrivalTime p))
         /\ completionTime q
            = Some (num_add (Math_max currentTime (arrivalTime p))
                            (burstTime p)).
Proof.
  intros Hps sorted out. repeat split.
  - apply Array_sort_perm.
  - by apply Array_sort_sorted.
  - intros t. by apply Array_sort_stable.
  - intros l Hs Hf. by apply Array_sort_unique.
  - unfold out, simulateFCFS.
    by rewrite map_annotate_length, Array_sort_length.
  - intros i p Hi.
    destruct (map_annotate_lookup (Num 0) sorted i p Hi) as (t & Ht & Hq).
    exists (snd (annotate t p)), t. repeat split; done.
Qed.

Lemma C1_fcfs_sorts_then_walks_witness :
  let ps := [P "P3" 2 8; P "P1" 0 5; P "P2" 0 3] in
  Array_sort by_arrival ps = [P "P1" 0 5; P "P2" 0 3; P "P3" 2 8]
  /\ length (simulateFCFS ps) = length ps.
Proof.
  split; [reflexivity|].
  apply (C1_fcfs_sorts_then_walks [P "P3" 2 8; P "P1" 0 5; P "P2" 0 3]).
  repeat constructor.
Defined.

(** C2, as the code has it.  When the arrival and burst times are
    integers whose absolute values sum to at most 2^53, so that every
    sum and difference of the run is exact, every process in
    the list installed by a simulation run carries
    [turnAroundTime = completionTime - arrivalTime] and
    [waitingTime = turnAroundTime - burstTime], which for this
    non-preemptive run is also [startTime - arrivalTime]. *)
Theorem C2_derived_metrics (c c' : Component) :
  Forall has_times (processes c) ->
  total_time (processes c) <= safe_integer ->
  runSimulation c = (Returned, c') ->
  Forall (fun q =>
            exists a b s ct ta w,
              arrivalTime q = Num a /\ burstTime q = Num b
              /\ startTime q = Some (Num s)
              /\ completionTime q = Some (Num ct)
              /\ turnAroundTime q = Some (Num ta)
              /\ waitingTime q = Some (Num w)
              /\ ta = ct - a /\ w = ta - b /\ w = s - a)
         (processes c').
Proof.
  intros Hps Hbound [_ ->]%runSimulation_Returned. simpl.
  eapply Forall_impl; [by apply simulateFCFS_metrics|].
  intros q (a & b & s & ct & ta & w & Ha & Hb & Hs & Hc & Hta & Hw & _
              & E1 & E2 & E3 & _).
  exists a, b, s, ct, ta, w. repeat split; done.
Qed.

Lemma C2_derived_metrics_witness :
  let c := mkComponent [P "P1" 0 5; P "P2" 1 3] Form.empty
                       SCHEDULING_ALGORITHMS.FCFS in
  Forall has_times (processes c)
  /\ length (processes (snd (runSimulation c))) = 2%nat
  /\ Forall (fun q => exists a b s ct ta w,
              arrivalTime q = Num a /\ burstTime q = Num b
              /\ startTime q = Some (Num s)
              /\ completionTime q = Some (Num ct)
              /\ turnAroundTime q = Some (Num ta)
              /\ waitingTime q = Some (Num w)
              /\ ta = ct - a /\ w = ta - b /\ w = s - a)
       (processes (snd (runSimulation c))).
Proof.
  intros c. split; [repeat constructor|]. split; [reflexivity|].
  apply (C2_derived_metrics c (snd (runSimulation c)));
    [repeat constructor | vm_compute; discriminate | reflexivity].
Defined.

(** C2 as stated fails: for the single process with arrival 2^53 and
    burst 1 the completion time 2^53 + 1 is rounded to 2^53, so the run
    attaches [turnAroundTime = 0] and [waitingTime = 0], and
    [waitingTime] is not [turnAroundTime - burstTime]. *)
Lemma C2_rounded_sum :
  let c := mkComponent [P "P1" (2 ^ 53) 1] Form.empty
                       SCHEDULING_ALGORITHMS.FCFS in
  Forall has_times (processes c)
  /\ fst (runSimulation c) = Returned
  /\ map (fun q => (startTime q, completionTime q, turnAroundTime q,
                    waitingTime q))
         (processes (snd (runSimulation c)))
     = [(Some (Num (2 ^ 53)), Some (Num (2 ^ 53)), Some (Num 0),
         Some (Num 0))]
  /\ ~ Forall (fun q =>
                exists a b s ct ta w,
                  arrivalTime q = Num a /\ burstTime q = Num b
                  /\ startTime q = Some (Num s)
                  /\ completionTime q = Some (Num ct)
                  /\ turnAroundTime q = Some (Num ta)
                  /\ waitingTime q = Some (Num w)
                  /\ ta = ct - a /\ w = ta - b /\ w = s - a)
             (processes (snd (runSimulation c))).
Proof.
  intros c. split; [repeat constructor|]. split; [reflexivity|].
  split; [by vm_compute|].
  set (q0 := snd (annotate (Num 0) (P "P1" (2 ^ 53) 1))).
  assert (processes (snd (runSimulation c)) = [q0]) as -> by reflexivity.
  assert (burstTime q0 = Num 1 /\ turnAroundTime q0 = Some (Num 0)
          /\ waitingTime q0 = Some (Num 0)) as (B & T & W) by by vm_compute.
  intros [H _]%Forall_cons.
  destruct H as (a & b & s & ct & ta & w & Ha & Hb & Hs & Hc & Hta & Hw
                 & E1 & E2 & E3).
  assert (b = 1) by congruence. assert (ta = 0) by congruence.
  assert (w = 0) by congruence. lia.
Qed.

(** C3, as the code has it.  When every input process has
    [arrivalTime >= 0] and [burstTime > 0] and all these times sum to
    at most 2^53, every process installed by a run, whatever the
    selected algorithm, has [waitingTime >= 0],
    [turnAroundTime >= burstTime] and [completionTime >= arrivalTime]. *)
Theorem C3_non_negativity (c c' : Component) :
  Forall valid_input (processes c) ->
  total_time (processes c) <= safe_integer ->
  runSimulation c = (Returned, c') ->
  Forall nonneg_metrics (processes c').
Proof.
  intros Hps Hbound [_ ->]%runSimulation_Returned. simpl.
  assert (Forall valid_input (simulateFCFS (processes c))) as Hv.
  { apply (Forall2_Forall_r same_inputs valid_input
             (Array_sort by_arrival (processes c)));
      [apply map_annotate_same_inputs|].
    apply Array_sort_Forall. eapply Forall_impl; [exact Hps|].
    intros p (a & b & Ha & Hb & H) q (_ & Ha' & Hb' & _).
    exists a, b. by rewrite Ha', Hb'. }
  pose proof (simulateFCFS_exact (processes c)
                (valid_input_has_times _ Hps) Hbound) as Ht.
  rewrite Forall_forall in Ht, Hv. apply Forall_forall. intros q Hq.
  destruct (walked_within_metrics _ q Hbound (Ht q Hq))
    as (a & b & s & ct & ta & w & Ha & Hb & Hs & Hc & Hta
        & Hw & E1 & E2 & E3 & E4 & Hle).
  destruct (Hv q Hq) as (a' & b' & Ha' & Hb' & Hpos).
  exists a, b, ct, ta, w.
  assert (a' = a) by congruence. assert (b' = b) by congruence.
  repeat split; try done; lia.
Qed.

Lemma C3_non_negativity_witness :
  let c := mkComponent [P "P1" 4 5; P "P2" 1 3; P "P3" 0 2] Form.empty
                       SCHEDULING_ALGORITHMS.FCFS in
  Forall valid_input (processes c)
  /\ map waitingTime (processes (snd (runSimulation c)))
     = [Some (Num 0); Some (Num 1); Some (Num 1)]
  /\ Forall nonneg_metrics (processes (snd (runSimulation c))).
Proof.
  intros c. split; [|split; [reflexivity|]].
  - repeat constructor; eexists _, _; repeat split; try reflexivity; lia.
  - apply (C3_non_negativity c (snd (runSimulation c)));
      [|vm_compute; discriminate|reflexivity].
    repeat constructor; eexists _, _; repeat split; try reflexivity; lia.
Defined.

(** C3 as stated fails: the process with arrival 2^53 and burst 1 is a
    valid input, its completion time 2^53 + 1 is rounded to 2^53, and
    the run attaches [turnAroundTime = 0], which is below its burst
    time. *)
Lemma C3_turnaround_below_burst :
  let c := mkComponent [P "P1" (2 ^ 53) 1] Form.empty
                       SCHEDULING_ALGORITHMS.FCFS in
  Forall valid_input (processes c)
  /\ fst (runSimulation c) = Returned
  /\ map (fun q => (burstTime q, turnAroundTime q))
         (processes (snd (runSimulation c)))
     = [(Num 1, Some (Num 0))]
  /\ ~ Forall nonneg_metrics (processes (snd (runSimulation c))).
Proof.
  intros c. split.
  { repeat constructor. exists (2 ^ 53), 1. repeat split; try reflexivity; lia. }
  split; [reflexivity|]. split; [by vm_compute|].
  set (q0 := snd (annotate (Num 0) (P "P1" (2 ^ 53) 1))).
  assert (processes (snd (runSimulation c)) = [q0]) as -> by reflexivity.
  assert (burstTime q0 = Num 1 /\ turnAroundTime q0 = Some (Num 0))
    as (B & T) by by vm_compute.
  intros [H _]%Forall_cons.
  destruct H as (a & b & ct & ta & w & Ha & Hb & Hc & Hta & Hw & H1 & H2 & H3).
  assert (b = 1) by congruence. assert (ta = 0) by congruence. lia.
Qed.

Lemma filter_Forall2_same_inputs (f : Process -> bool) l l' :
  (forall p q, same_inputs p q -> f q = f p) ->
  Forall2 same_inputs l l' ->
  Forall2 same_inputs (List.filter f l) (List.filter f l').
Proof.
  intros Hf. induction 1 as [|p q l l' Hpq _ IH]; [constructor|].
  cbn [List.filter]. rewrite (Hf p q Hpq).
  destruct (f p); [by constructor | done].
Qed.

(** C10.  A successful FCFS run leaves in the registry the annotated
    processes in ascending order of arrival, processes of equal arrival
    in their order before the run, so the order of insertion is lost in
    general; and a second FCFS run on that registry changes nothing, in
    particular no [startTime] or [completionTime]. *)
Theorem C10_fcfs_run_idempotent (c : Component) :
  algorithm c = SCHEDULING_ALGORITHMS.FCFS ->
  Forall has_arrival (processes c) ->
  let c1 := snd (runSimulation c) in
  fst (runSimulation c) = Returned
  /\ Forall2 same_inputs (Array_sort by_arrival (processes c)) (processes c1)
  /\ StronglySorted arrival_le (processes c1)
  /\ (forall t, Forall2 same_inputs (List.filter (arrival_is t) (processes c))
                        (List.filter (arrival_is t) (processes c1)))
  /\ runSimulation c1 = (Returned, c1)
  /\ (exists c0, algorithm c0 = SCHEDULING_ALGORITHMS.FCFS
                 /\ ids (processes (snd (runSimulation c0)))
                    <> ids (processes c0)).
Proof.
  intros Halg Hps. rewrite (runSimulation_FCFS c Halg). simpl.
  repeat split.
  - apply map_annotate_same_inputs.
  - by apply simulateFCFS_sorted.
  - intros t. rewrite <- (Array_sort_stable t (processes c)) by done.
    apply filter_Forall2_same_inputs; [|apply map_annotate_same_inputs].
    intros p q (_ & Ha & _). unfold arrival_is. by rewrite Ha.
  - rewrite runSimulation_FCFS by done. simpl.
    by rewrite simulateFCFS_idempotent.
  - exists (mkComponent [P "late" 3 1; P "early" 0 1] Form.empty
                        SCHEDULING_ALGORITHMS.FCFS).
    split; [reflexivity | discriminate].
Qed.

Lemma C10_fcfs_run_idempotent_witness :
  let c := mkComponent [P "P2" 1 3; P "P1" 0 5] Form.empty
                       SCHEDULING_ALGORITHMS.FCFS in
  ids (processes (snd (runSimulation c))) = ["P1"; "P2"]
  /\ runSimulation (snd (runSimulation c)) = (Returned, snd (runSimulation c)).
Proof.
  intros c. split; [reflexivity|].
  apply (C10_fcfs_run_idempotent c); [reflexivity | repeat constructor].
Defined.

(** ** The run operation *)

(** C5, as the code has it.  Of the four named algorithms the run
    operation implements FCFS only: with FCFS selected it installs the
    FCFS result, every process then carrying a [completionTime]; with
    RR, SJF or PRIORITY selected it alerts that the algorithm is not
    implemented and leaves the component as it was. *)
Theorem C5_only_fcfs_implemented (c : Component) :
  In (algorithm c) SCHEDULING_ALGORITHMS.values ->
  if String.eqb (algorithm c) SCHEDULING_ALGORITHMS.FCFS
  then runSimulation c
       = (Returned, setProcesses c (simulateFCFS (processes c)))
       /\ Forall (fun q => is_Some (completionTime q))
                 (processes (snd (runSimulation c)))
  else In (algorithm c) [SCHEDULING_ALGORITHMS.RR; SCHEDULING_ALGORITHMS.SJF;
                         SCHEDULING_ALGORITHMS.PRIORITY]
       /\ runSimulation c
          = (Alerted "Selected algorithm not implemented yet", c).
Proof.
  intros Hin.
  destruct (String.eqb_spec (algorithm c) SCHEDULING_ALGORITHMS.FCFS) as [E|E].
  - rewrite (runSimulation_FCFS c E). split; [done|]. simpl.
    unfold simulateFCFS. generalize (Num 0).
    induction (Array_sort by_arrival (processes c)) as [|p l IH]; intros t;
      simpl; constructor; [by eexists | apply IH].
  - split; [|by apply runSimulation_other].
    destruct Hin as [Hin|Hin]; [congruence | exact Hin].
Qed.

Lemma C5_only_fcfs_implemented_witness :
  runSimulation (mkComponent [P "P1" 0 5; P "P2" 1 3] Form.empty
                             SCHEDULING_ALGORITHMS.RR)
  = (Alerted "Selected algorithm not implemented yet",
     mkComponent [P "P1" 0 5; P "P2" 1 3] Form.empty SCHEDULING_ALGORITHMS.RR).
Proof.
  apply (C5_only_fcfs_implemented
           (mkComponent [P "P1" 0 5; P "P2" 1 3] Form.empty
                        SCHEDULING_ALGORITHMS.RR)).
  simpl. tauto.
Defined.

(** C5 as stated fails: with Round Robin selected, the run on
    P1(arrival 0, burst 5) and P2(arrival 1, burst 3) alerts and
    produces no completion time at all, so neither 7 for P2 nor 8 for
    P1. *)
Lemma C5_round_robin_not_run :
  let c := mkComponent [P "P1" 0 5; P "P2" 1 3] Form.empty
                       SCHEDULING_ALGORITHMS.RR in
  runSimulation c = (Alerted "Selected algorithm not implemented yet", c)
  /\ ~ (exists q, In q (processes (snd (runSimulation c)))
                  /\ id q = "P2" /\ completionTime q = Some (Num 7))
  /\ ~ (exists q, In q (processes (snd (runSimulation c)))
                  /\ id q = "P1" /\ completionTime q = Some (Num 8)).
Proof.
  intros c. split; [reflexivity|].
  split; intros (q & Hq & _ & Hc); simpl in Hq;
    destruct Hq as [<-|[<-|[]]]; discriminate.
Qed.

(** C6.  A selector outside the four named algorithms makes
    [runSimulation] fail loudly: it raises the alert and returns with
    the component, hence the registry, exactly as it was. *)
Theorem C6_unsupported_algorithm (c : Component) :
  ~ In (algorithm c) SCHEDULING_ALGORITHMS.values ->
  runSimulation c = (Alerted "Selected algorithm not implemented yet", c).
Proof.
  intros Hout. apply runSimulation_other. intros E. apply Hout. by left.
Qed.

Lemma C6_unsupported_algorithm_witness :
  runSimulation (mkComponent [P "P1" 0 5] Form.empty "Lottery")
  = (Alerted "Selected algorithm not implemented yet",
     mkComponent [P "P1" 0 5] Form.empty "Lottery").
Proof.
  apply (C6_unsupported_algorithm (mkComponent [P "P1" 0 5] Form.empty "Lottery")).
  simpl. intros [H|[H|[H|[H|[]]]]]; discriminate.
Defined.

(** C7, as the code has it.  With an empty registry the Run Simulation
    button is disabled and a click never reaches [runSimulation]; the
    handler itself has no check for the empty list: called all the
    same, it leaves the registry empty, and with FCFS selected it
    returns without any alert. *)
Theorem C7_empty_run_guarded (c : Component) :
  processes c = [] ->
  runButton_disabled c = true
  /\ clickRunSimulation c = None
  /\ snd (runSimulation c) = c
  /\ fst (runSimulation c)
     = if String.eqb (algorithm c) SCHEDULING_ALGORITHMS.FCFS
       then Returned
       else Alerted "Selected algorithm not implemented yet".
Proof.
  destruct c as [ps f a]. simpl. intros ->.
  unfold clickRunSimulation, runButton_disabled, runSimulation. simpl.
  by destruct (String.eqb a SCHEDULING_ALGORITHMS.FCFS).
Qed.

Lemma C7_empty_run_guarded_witness :
  clickRunSimulation initial = None /\ snd (runSimulation initial) = initial.
Proof.
  split; apply (C7_empty_run_guarded initial); reflexivity.
Defined.

(** C7 as stated fails: on the empty registry of the initial component
    [runSimulation] returns normally, without any failure. *)
Lemma C7_empty_run_returns :
  processes initial = []
  /\ runSimulation initial = (Returned, initial)
  /\ ~ (exists msg, fst (runSimulation initial) = Alerted msg).
Proof.
  split; [reflexivity|]. split; [reflexivity|].
  intros [msg H]. discriminate.
Qed.

(** ** The registry *)

Lemma some_id_true x ps : some_id x ps = true <-> In x (ids ps).
Proof.
  unfold some_id, ids. rewrite existsb_exists, in_map_iff.
  split; intros (p & H1 & H2); exists p.
  - by apply String.eqb_eq in H2.
  - split; [done | by apply String.eqb_eq].
Qed.

Lemma some_id_false x ps : some_id x ps = false <-> ~ In x (ids ps).
Proof.
  rewrite <- some_id_true. by destruct (some_id x ps).
Qed.

(** What [addProcess] does, case by case. *)
Lemma addProcess_cases c :
  let f := newProcess c in
  addProcess c =
    if required_filled f then
      if some_id (Form.id f) (processes c)
      then (Alerted "A process with this ID already exists", c)
      else (Returned,
            mkComponent (processes c ++ [processToAdd f]) Form.empty
                        (algorithm c))
    else (Alerted "Please fill in all required fields", c).
Proof.
  unfold addProcess, required_filled. simpl.
  by destruct (truthy (Form.id (newProcess c))),
       (truthy (Form.arrivalTime (newProcess c))),
       (truthy (Form.burstTime (newProcess c))).
Qed.

Lemma ids_filter_NoDup (f : Process -> bool) ps :
  NoDup (ids ps) -> NoDup (ids (List.filter f ps)).
Proof.
  rewrite !NoDup_ListNoDup. unfold ids. induction ps as [|p ps IH]; simpl; [done|].
  intros H. apply List.NoDup_cons_iff in H as [Hp Hps].
  destruct (f p); simpl; [|by apply IH].
  apply List.NoDup_cons_iff. split; [|by apply IH].
  intros Hin. apply Hp. apply in_map_iff in Hin as (q & Hq & Hin).
  apply in_map_iff. exists q. split; [done|].
  by apply List.filter_In in Hin as [Hin _].
Qed.

Lemma ids_simulateFCFS ps : ids (simulateFCFS ps) ≡ₚ ids ps.
Proof.
  unfold simulateFCFS, ids.
  transitivity (map id (Array_sort by_arrival ps));
    [|apply Permutation_map, Array_sort_perm].
  generalize (Num 0).
  induction (Array_sort by_arrival ps) as [|p l IH]; intros t; simpl; [done|].
  constructor. apply IH.
Qed.

Lemma handle_NoDup c e :
  NoDup (ids (processes c)) -> NoDup (ids (processes (handle c e))).
Proof.
  intros Hc. destruct e as [name value| |x|a|]; simpl; try done.
  - rewrite addProcess_cases. simpl.
    destruct (required_filled (newProcess c)); [|done].
    destruct (some_id _ _) eqn:Hid; [done|]. simpl.
    apply some_id_false in Hid. unfold ids in *. rewrite map_app. simpl.
    apply NoDup_app.
    split; [done|]. split; [|apply NoDup_singleton].
    intros y Hy ->%list_elem_of_singleton. by apply list_elem_of_In in Hy.
  - by apply ids_filter_NoDup.
  - unfold clickRunSimulation. destruct (runButton_disabled c); [done|].
    unfold runSimulation. destruct (String.eqb _ _); [|done]. simpl.
    by rewrite ids_simulateFCFS.
Qed.

Lemma session_snoc evs e : session (evs ++ [e]) = handle (session evs) e.
Proof. unfold session. by rewrite foldl_app. Qed.

Lemma session_NoDup evs : NoDup (ids (processes (session evs))).
Proof.
  induction evs as [|e evs IH] using rev_ind; [constructor|].
  rewrite session_snoc. by apply handle_NoDup.
Qed.

(** C4.  In every state the component can reach, no two stored
    processes share an id, and [addProcess] keeps it so: when the id in
    the form is already stored the add fails with an alert (the
    duplicate-id one once the required fields are filled) and leaves
    the component exactly as it was; when the id is fresh and the
    required fields are filled the record is appended. *)
Theorem C4_unique_ids (evs : list Event) :
  let c := session evs in
  let f := newProcess c in
  let o := fst (addProcess c) in
  let c' := snd (addProcess c) in
  NoDup (ids (processes c))
  /\ NoDup (ids (processes c'))
  /\ match some_id (Form.id f) (processes c), required_filled f with
     | true, true =>
         o = Alerted "A process with this ID already exists" /\ c' = c
     | true, false =>
         o = Alerted "Please fill in all required fields" /\ c' = c
     | false, true =>
         o = Returned /\ processes c' = (processes c ++ [processToAdd f])%list
     | false, false =>
         o = Alerted "Please fill in all required fields" /\ c' = c
     end.
Proof.
  intros c f o c'. split; [apply session_NoDup|]. split.
  - apply (handle_NoDup c ClickAdd), session_NoDup.
  - unfold o, c'. rewrite addProcess_cases. fold f.
    by destruct (some_id _ _), (required_filled f).
Qed.

Lemma added_in_snoc evs e p : added_in evs p -> added_in (evs ++ [e]) p.
Proof.
  intros (before & after & -> & H). exists before, (after ++ [e]).
  split; [|exact H]. by rewrite <- app_assoc.
Qed.

Lemma added_in_same_inputs evs p q :
  same_inputs p q -> added_in evs p -> added_in evs q.
Proof.
  intros (Hi & Ha & Hb & _) (before & after & E & H0 & H1 & H2 & H3 & H4 & H5 & H6).
  exists before, after. split; [done|]. simpl.
  rewrite Hi, Ha, Hb. by repeat split.
Qed.

(** C8, as the code has it.  In every state the component can reach,
    each stored process has an [arrivalTime] and a [burstTime]: it was
    stored by a successful click on Add, and its times are what
    [parseInt] read from the non-empty strings that stood in the
    arrival and burst fields at that click; their sign is not
    checked. *)
Theorem C8_times_present (evs : list Event) :
  Forall (added_in evs) (processes (session evs)).
Proof.
  induction evs as [|e evs IH] using rev_ind; [constructor|].
  rewrite session_snoc.
  assert (Forall (added_in (evs ++ [e])) (processes (session evs))) as IH'
    by (eapply Forall_impl; [exact IH | intros p; apply added_in_snoc]).
  set (c := session evs) in *.
  destruct e as [name value| |x|a|]; simpl; try done.
  - pose proof (addProcess_cases c) as Hadd. simpl in Hadd.
    destruct (required_filled (newProcess c)) eqn:Hf;
      [|by rewrite Hadd].
    destruct (some_id _ _) eqn:Hid; rewrite Hadd; [done|]. simpl.
    apply Forall_app. split; [done|]. constructor; [|constructor].
    exists evs, []. split; [done|]. fold c. simpl. rewrite Hadd.
    unfold required_filled in Hf.
    apply andb_prop in Hf as [[Hi Ha]%andb_prop Hb]. by repeat split.
  - rewrite Forall_forall in *. intros p Hp. apply IH'.
    apply list_elem_of_In in Hp. apply list_elem_of_In.
    by apply List.filter_In in Hp as [Hp _].
  - unfold clickRunSimulation. destruct (runButton_disabled c); [done|].
    unfold runSimulation. destruct (String.eqb _ _); [|done]. simpl.
    apply (Forall2_Forall_r same_inputs _ (Array_sort by_arrival (processes c)));
      [apply map_annotate_same_inputs|].
    apply Array_sort_Forall. eapply Forall_impl; [exact IH'|].
    intros p Hp q Hpq. by apply (added_in_same_inputs _ p q).
Qed.

(** C8 as stated fails: a successful add stores a process with a
    negative arrival time and a zero burst time, and the run accepts
    it. *)
Lemma C8_sign_not_checked :
  let evs := (fill "P1" "-3" "0" EmptyString ++ [ClickAdd])%list in
  processes (session evs) = [P "P1" (-3) 0]
  /\ fst <$> clickRunSimulation (session evs) = Some Returned
  /\ ~ Forall valid_input (processes (session evs)).
Proof.
  intros evs. split; [reflexivity|]. split; [reflexivity|].
  intros H. apply Forall_cons in H as [(a & b & Ha & Hb & Hpos) _].
  vm_compute in Ha, Hb. assert (b = 0) by congruence. lia.
Qed.

(** ** The engine over the store *)

Section ArraySortMap.
Context {A B : Type} (f : A -> B) (comparefn : B -> B -> number).

Lemma sort_insert_map x l :
  map f (sort_insert (fun a b => comparefn (f a) (f b)) x l)
  = sort_insert comparefn (f x) (map f l).
Proof.
  induction l as [|y l IH]; [done|].
  cbn [sort_insert map]. unfold sorts_after.
  destruct (comparefn (f x) (f y)) as [v| | |]; try done.
  - destruct (0 <? v); [|done]. cbn [map]. by rewrite IH.
  - cbn [map]. by rewrite IH.
Qed.

Lemma Array_sort_map l :
  map f (Array_sort (fun a b => comparefn (f a) (f b)) l)
  = Array_sort comparefn (map f l).
Proof.
  unfold Array_sort. induction l as [|x l IH]; [done|].
  cbn [foldr map]. rewrite sort_insert_map. by rewrite IH.
Qed.
End ArraySortMap.

Lemma bind_Some {A B} (m : Store.M A) (f : A -> Store.M B) h x h' :
  m h = Some (x, h') -> (m ≫= f) h = f x h'.
Proof. intros H. unfold mbind, Store.M_bind. by rewrite H. Qed.

Lemma points_to_grow h ls ps more arrs :
  points_to h ls ps ->
  points_to (Store.mkHeap (Store.objects h ++ more) arrs) ls ps.
Proof.
  unfold points_to. intros H. eapply Forall2_impl; [exact H|].
  intros l p Hl. simpl. by apply lookup_app_l_Some.
Qed.

Lemma points_to_fresh objs new arrs :
  points_to (Store.mkHeap (objs ++ new) arrs)
            (seq (length objs) (length new)) new.
Proof.
  unfold points_to. simpl. revert objs.
  induction new as [|q new IH]; intros objs; [constructor|].
  simpl. constructor.
  - by rewrite list_lookup_middle.
  - specialize (IH (objs ++ [q])).
    rewrite length_app, Nat.add_1_r, <- app_assoc in IH. exact IH.
Qed.

Lemma store_map_annotate t h ls ps :
  points_to h ls ps ->
  Store.map_annotate t ls h
  = Some (seq (length (Store.objects h)) (length ls),
          Store.mkHeap (Store.objects h ++ map_annotate t ps) (Store.arrays h)).
Proof.
  revert t h ps.
  induction ls as [|l ls IH]; intros t h ps H.
  - apply Forall2_nil_inv_l in H as ->. destruct h. simpl.
    by rewrite app_nil_r.
  - apply Forall2_cons_inv_l in H as (p & ps' & Hl & Hps & ->).
    cbn [Store.map_annotate map_annotate].
    erewrite bind_Some by (unfold Store.get_object; by rewrite Hl).
    destruct (annotate t p) as [t' q].
    erewrite bind_Some by reflexivity.
    erewrite bind_Some.
    2:{ apply IH. apply (points_to_grow h ls ps' [q]), Hps. }
    unfold mret, Store.M_ret. simpl.
    by rewrite length_app, Nat.add_1_r, <- app_assoc.
Qed.

Lemma store_sort_by_arrival h a ls ps :
  Store.arrays h !! a = Some ls -> points_to h ls ps ->
  exists sorted,
    Store.sort_by_arrival a h
    = Some ((), Store.mkHeap (Store.objects h) (<[a:=sorted]> (Store.arrays h)))
    /\ points_to h sorted (Array_sort by_arrival ps).
Proof.
  intros Ha Hps.
  set (pairs := Array_sort (fun x y : Store.loc * Process =>
                              by_arrival (snd x) (snd y)) (zip ls ps)).
  exists (map fst pairs). split.
  - unfold Store.sort_by_arrival.
    erewrite bind_Some by (unfold Store.get_array; by rewrite Ha).
    erewrite bind_Some.
    2:{ unfold Store.get_objects.
        by rewrite (proj2 (mapM_Some _ ls ps) Hps). }
    unfold Store.set_array. apply lookup_lt_Some in Ha.
    by rewrite decide_True.
  - assert (Forall (fun x => Store.objects h !! fst x = Some (snd x)) pairs)
      as Hpairs.
    { apply Array_sort_Forall. clear Ha.
      induction Hps; simpl; by constructor. }
    assert (map snd pairs = Array_sort by_arrival ps) as <-.
    { unfold pairs. rewrite (Array_sort_map snd by_arrival).
      f_equal. apply snd_zip. by rewrite (Forall2_length _ _ _ Hps). }
    unfold points_to. clear -Hpairs.
    induction Hpairs; simpl; by constructor.
Qed.

(** C9.  Run over the store, [simulateFCFS] succeeds on any array of
    existing objects and only allocates: every object and every array
    that existed before the run is still there, unchanged, so the input
    array still denotes the same processes in the same order.  The new
    array it returns denotes the result of the engine, whose objects
    are all new, and which lists the input processes (sorted) with
    their [id], [arrivalTime], [burstTime], [priority] and [state]
    unchanged. *)
Theorem C9_inputs_not_mutated (h : Store.heap) (a : Store.loc)
    (ps : list Process) :
  Store.read_array a h = Some ps ->
  exists a' h' new_objects new_arrays out,
    Store.simulateFCFS a h = Some (a', h')
    /\ Store.objects h' = Store.objects h ++ new_objects
    /\ Store.arrays h' = Store.arrays h ++ new_arrays
    /\ Store.read_array a h' = Some ps
    /\ Store.read_array a' h' = Some (simulateFCFS ps)
    /\ Store.arrays h' !! a' = Some out
    /\ Forall (fun l => (length (Store.objects h) <= l)%nat) out
    /\ Array_sort by_arrival ps ≡ₚ ps
    /\ Forall2 same_inputs (Array_sort by_arrival ps) (simulateFCFS ps).
Proof.
  unfold Store.read_array. intros Hread.
  destruct (Store.arrays h !! a) as [ls|] eqn:Ha; [|done].
  simpl in Hread. apply mapM_Some in Hread. fold (points_to h ls ps) in Hread.
  set (n := length (Store.arrays h)).
  set (h1 := Store.mkHeap (Store.objects h) (Store.arrays h ++ [ls])).
  assert (Store.arrays h1 !! n = Some ls) as Hn
    by (simpl; by rewrite list_lookup_middle).
  destruct (store_sort_by_arrival h1 n ls ps Hn) as (sl & Hsort & Hsl);
    [by apply (points_to_grow h ls ps [] (Store.arrays h1)) in Hread;
        rewrite app_nil_r in Hread|].
  simpl in Hsort. fold n in Hsort.
  rewrite insert_app_r_alt, Nat.sub_diag in Hsort by done. simpl in Hsort.
  set (h2 := Store.mkHeap (Store.objects h) (Store.arrays h ++ [sl])) in *.
  assert (points_to h2 sl (Array_sort by_arrival ps)) as Hsl2 by exact Hsl.
  set (out := seq (length (Store.objects h)) (length sl)).
  exists (S n),
    (Store.mkHeap (Store.objects h ++ simulateFCFS ps)
                  (Store.arrays h ++ [sl; out])),
    (simulateFCFS ps), [sl; out], out.
  assert (length sl = length (simulateFCFS ps)) as Hlen.
  { unfold simulateFCFS.
    by rewrite map_annotate_length, (Forall2_length _ _ _ Hsl). }
  repeat split.
  - unfold Store.simulateFCFS.
    erewrite bind_Some by (unfold Store.get_array; by rewrite Ha).
    erewrite bind_Some by reflexivity.
    erewrite bind_Some by exact Hsort.
    erewrite bind_Some
      by (unfold Store.get_array; simpl; by rewrite list_lookup_middle).
    erewrite bind_Some by (by apply store_map_annotate).
    unfold Store.new_array. simpl.
    rewrite length_app, Nat.add_1_r, <- app_assoc. done.
  - unfold Store.read_array. simpl.
    rewrite (lookup_app_l_Some _ _ _ _ Ha). simpl.
    apply mapM_Some. eapply Forall2_impl; [exact Hread|].
    intros l p Hl. simpl. by apply lookup_app_l_Some.
  - unfold Store.read_array. simpl.
    replace (S n) with (length (Store.arrays h ++ [sl]))
      by (rewrite length_app; simpl; lia).
    rewrite (app_assoc _ [sl] [out]), list_lookup_middle by done. simpl.
    apply mapM_Some. unfold out. rewrite Hlen.
    apply (points_to_fresh (Store.objects h) (simulateFCFS ps) []).
  - simpl.
    replace (S n) with (length (Store.arrays h ++ [sl]))
      by (rewrite length_app; simpl; lia).
    by rewrite (app_assoc _ [sl] [out]), list_lookup_middle.
  - apply Forall_forall. intros l Hl%elem_of_seq. lia.
  - apply Array_sort_perm.
  - apply map_annotate_same_inputs.
Qed.

Lemma C9_inputs_not_mutated_witness :
  let h := Store.mkHeap [P "P2" 1 3; P "P1" 0 5] [[0%nat; 1%nat]] in
  Store.read_array 0 h = Some [P "P2" 1 3; P "P1" 0 5]
  /\ exists a' h' new_objects new_arrays out,
       Store.simulateFCFS 0 h = Some (a', h')
       /\ Store.objects h' = Store.objects h ++ new_objects
       /\ Store.arrays h' = Store.arrays h ++ new_arrays
       /\ Store.read_array 0 h' = Some [P "P2" 1 3; P "P1" 0 5]
       /\ Store.read_array a' h' = Some (simulateFCFS [P "P2" 1 3; P "P1" 0 5])
       /\ Store.arrays h' !! a' = Some out
       /\ Forall (fun l => (length (Store.objects h) <= l)%nat) out
       /\ Array_sort by_arrival [P "P2" 1 3; P "P1" 0 5]
          ≡ₚ [P "P2" 1 3; P "P1" 0 5]
       /\ Forall2 same_inputs (Array_sort by_arrival [P "P2" 1 3; P "P1" 0 5])
                   (simulateFCFS [P "P2" 1 3; P "P1" 0 5]).
Proof.
  intros h. split; [reflexivity|].
  apply (C9_inputs_not_mutated h 0%nat [P "P2" 1 3; P "P1" 0 5]).
  reflexivity.
Defined.

(** The run on a concrete store: two objects and one array before, four
    objects and three arrays after, the first two objects and the first
    array as before. *)
Example store_run :
  Store.simulateFCFS 0 (Store.mkHeap [P "P2" 1 3; P "P1" 0 5] [[0; 1]%nat])
  = Some (2%nat,
          Store.mkHeap
            [P "P2" 1 3; P "P1" 0 5;
             mkProcess "P1" (Num 0) (Num 5) (Num 0) NEW (Some (Num 0))
                       (Some (Num 5)) (Some (Num 5)) (Some (Num 0));
             mkProcess "P2" (Num 1) (Num 3) (Num 0) NEW (Some (Num 5))
                       (Some (Num 8)) (Some (Num 7)) (Some (Num 4))]
            [[0; 1]; [1; 0]; [2; 3]]%nat).
Proof. reflexivity. Qed.

(** Without the spread, [sort] would have reordered the array of the
    component state itself. *)
Example sort_overwrites :
  Store.sort_by_arrival 0
    (Store.mkHeap [P "P2" 1 3; P "P1" 0 5] [[0; 1]%nat])
  = Some ((), Store.mkHeap [P "P2" 1 3; P "P1" 0 5] [[1; 0]%nat]).
Proof. reflexivity. Qed.

(** ** Beyond the claims: the registry handlers *)

Lemma filter_not_id_all x ps :
  ~ In x (ids ps) ->
  List.filter (fun process => negb (String.eqb (id process) x)) ps = ps.
Proof.
  induction ps as [|p ps IH]; [done|]. simpl. intros H.
  destruct (String.eqb_spec (id p) x) as [E|E]; [tauto|].
  simpl. rewrite IH; [done | tauto].
Qed.

Lemma removeProcess_not_in x c : ~ In x (ids (processes (removeProcess x c))).
Proof.
  unfold ids. simpl. intros (p & Hp & Hin)%in_map_iff.
  apply List.filter_In in Hin as [_ Hin].
  rewrite Hp, String.eqb_refl in Hin. done.
Qed.

(** [removeProcess] takes out every process with the given id and
    nothing else: the other processes stay, unchanged and in their
    order; doing it again changes nothing; the form and the selector
    are not touched. *)
Theorem removeProcess_removes (x : string) (c : Component) :
  let c' := removeProcess x c in
  ~ In x (ids (processes c'))
  /\ sublist (processes c') (processes c)
  /\ (forall p, In p (processes c) -> id p <> x -> In p (processes c'))
  /\ removeProcess x c' = c'
  /\ newProcess c' = newProcess c
  /\ algorithm c' = algorithm c.
Proof.
  intros c'.
  assert (~ In x (ids (processes c'))) as Hx
    by apply removeProcess_not_in.
  split; [done|]. split; [|split; [|split; [|done]]].
  - unfold c'. simpl. induction (processes c) as [|p ps IH]; [done|].
    simpl. destruct (negb _); by constructor.
  - intros p Hp Hne. unfold c'. simpl. apply List.filter_In. split; [done|].
    by destruct (String.eqb_spec (id p) x).
  - unfold removeProcess at 1. rewrite (filter_not_id_all x _ Hx).
    by destruct c'.
Qed.

(** Removing an id that is not stored is a quiet no-op: the component
    is returned as it is. *)
Theorem removeProcess_absent (x : string) (c : Component) :
  ~ In x (ids (processes c)) -> removeProcess x c = c.
Proof.
  intros H. unfold removeProcess. rewrite (filter_not_id_all x _ H).
  by destruct c.
Qed.

Lemma removeProcess_absent_witness :
  removeProcess "P9" (mkComponent [P "P1" 0 5] Form.empty "x")
  = mkComponent [P "P1" 0 5] Form.empty "x".
Proof.
  apply (removeProcess_absent "P9" (mkComponent [P "P1" 0 5] Form.empty "x")).
  simpl. intros [H|[]]. discriminate.
Defined.

Lemma filter_not_id_delete ps i p :
  NoDup (ids ps) -> ps !! i = Some p ->
  List.filter (fun process => negb (String.eqb (id process) (id p))) ps
  = delete i ps.
Proof.
  revert i. induction ps as [|q ps IH]; intros i Hnd Hi; [done|].
  unfold ids in *. simpl in Hnd. apply NoDup_cons in Hnd as [Hq Hnd].
  destruct i as [|i]; simpl in *.
  - injection Hi as ->. rewrite String.eqb_refl. simpl.
    apply filter_not_id_all. by rewrite <- list_elem_of_In.
  - destruct (String.eqb_spec (id q) (id p)) as [E|E]; simpl.
    + exfalso. apply Hq. rewrite E. apply list_elem_of_fmap_2.
      by eapply list_elem_of_lookup_2.
    + f_equal. by apply IH.
Qed.

(** In every state the component can reach, the Remove button of a
    card takes out that card and no other: the list after the click is
    the list before with the clicked position deleted. *)
Theorem remove_button_deletes_its_card (evs : list Event) (i : nat)
    (p : Process) :
  processes (session evs) !! i = Some p ->
  processes (handle (session evs) (ClickRemove (removes (renderCard p))))
  = delete i (processes (session evs)).
Proof.
  intros Hi. simpl. apply filter_not_id_delete; [apply session_NoDup|done].
Qed.

Lemma remove_button_deletes_its_card_witness :
  let evs := fill "P1" "0" "5" EmptyString ++ [ClickAdd]
             ++ fill "P2" "1" "3" EmptyString ++ [ClickAdd]
             ++ fill "P3" "2" "8" EmptyString ++ [ClickAdd] in
  ids (processes (handle (session evs) (ClickRemove "P2"))) = ["P1"; "P3"]
  /\ processes (handle (session evs) (ClickRemove "P2"))
     = delete 1%nat (processes (session evs)).
Proof.
  intros evs. split; [reflexivity|].
  apply (remove_button_deletes_its_card evs 1%nat (P "P2" 1 3)).
  reflexivity.
Defined.

Lemma addProcess_Returned c c' :
  addProcess c = (Returned, c') ->
  required_filled (newProcess c) = true
  /\ ~ In (Form.id (newProcess c)) (ids (processes c))
  /\ c' = mkComponent (processes c ++ [processToAdd (newProcess c)])
                      Form.empty (algorithm c).
Proof.
  rewrite addProcess_cases. simpl.
  destruct (required_filled (newProcess c)); [|done].
  destruct (some_id _ _) eqn:E; [done|].
  apply some_id_false in E. by intros [= <-].
Qed.

(** Removing the process that was just added gives back the registry
    as it was before the add. *)
Theorem add_then_remove (c c' : Component) :
  addProcess c = (Returned, c') ->
  processes (removeProcess (Form.id (newProcess c)) c') = processes c.
Proof.
  intros (_ & Hfresh & ->)%addProcess_Returned. simpl.
  rewrite List.filter_app, (filter_not_id_all _ _ Hfresh). simpl.
  rewrite String.eqb_refl. simpl. apply app_nil_r.
Qed.

Lemma add_then_remove_witness :
  let c := mkComponent [P "P1" 0 5]
             (Form.mk "P2" "1" "3" EmptyString) SCHEDULING_ALGORITHMS.FCFS in
  ids (processes (snd (addProcess c))) = ["P1"; "P2"]
  /\ processes (removeProcess "P2" (snd (addProcess c))) = [P "P1" 0 5].
Proof.
  intros c. split; [reflexivity|].
  apply (add_then_remove c (snd (addProcess c))). reflexivity.
Defined.

(** Once its process is removed an id is free again: with the required
    fields filled, the add of the id in the form succeeds right after
    the removal of that id, whatever the registry held. *)
Theorem remove_then_add (c : Component) :
  required_filled (newProcess c) = true ->
  let x := Form.id (newProcess c) in
  addProcess (removeProcess x c)
  = (Returned,
     mkComponent (processes (removeProcess x c) ++ [processToAdd (newProcess c)])
                 Form.empty (algorithm c)).
Proof.
  intros Hf x. rewrite addProcess_cases. simpl. rewrite Hf.
  pose proof (removeProcess_not_in x c) as Hx.
  apply some_id_false in Hx. simpl in Hx. fold x. by rewrite Hx.
Qed.

Lemma remove_then_add_witness :
  let c := mkComponent [P "P1" 0 5; P "P2" 1 3]
             (Form.mk "P1" "7" "2" EmptyString) SCHEDULING_ALGORITHMS.FCFS in
  fst (addProcess c) = Alerted "A process with this ID already exists"
  /\ addProcess (removeProcess "P1" c)
     = (Returned,
        mkComponent [P "P2" 1 3; P "P1" 7 2] Form.empty
                    SCHEDULING_ALGORITHMS.FCFS).
Proof.
  intros c. split; [reflexivity|].
  apply (remove_then_add c). reflexivity.
Defined.

(** A successful add empties the form, so clicking Add again right
    away stores nothing more: the second click raises the
    required-fields alert and leaves the component as it is. *)
Theorem add_twice_adds_once (c c' : Component) :
  addProcess c = (Returned, c') ->
  addProcess c' = (Alerted "Please fill in all required fields", c').
Proof. by intros (_ & _ & ->)%addProcess_Returned. Qed.

Lemma add_twice_adds_once_witness :
  let c := mkComponent [] (Form.mk "P1" "0" "5" EmptyString)
                       SCHEDULING_ALGORITHMS.FCFS in
  processes (snd (addProcess (snd (addProcess c)))) = [P "P1" 0 5].
Proof.
  intros c.
  rewrite (add_twice_adds_once c (snd (addProcess c))); reflexivity.
Defined.

Lemma fill_form c x a b pr :
  foldl handle c (fill x a b pr)
  = mkComponent (processes c) (Form.mk x a b pr) (algorithm c).
Proof. reflexivity. Qed.

(** Typing a record into the four inputs and clicking Add, from any
    state and whatever the form held before: when the id and both
    times are non-empty and the id is not stored yet, the registry
    gains, at its end, the process with that id, the parsed times, the
    parsed priority (0 for an empty priority), state New and no
    metrics; the form is emptied and the selector kept. *)
Theorem type_and_add (c : Component) (x a b pr : string) :
  truthy x = true -> truthy a = true -> truthy b = true ->
  ~ In x (ids (processes c)) ->
  foldl handle c (fill x a b pr ++ [ClickAdd])
  = mkComponent
      (processes c
       ++ [mkProcess x (parseInt a) (parseInt b)
                     (if truthy pr then parseInt pr else Num 0)
                     NEW None None None None])
      Form.empty (algorithm c).
Proof.
  intros Hx Ha Hb Hfresh. rewrite foldl_app, fill_form. simpl.
  rewrite addProcess_cases. simpl.
  unfold required_filled. simpl. rewrite Hx, Ha, Hb. simpl.
  apply some_id_false in Hfresh. by rewrite Hfresh.
Qed.

Lemma type_and_add_witness :
  processes (foldl handle
               (mkComponent [P "P1" 0 5] (Form.mk "zz" "9" EmptyString "4")
                            SCHEDULING_ALGORITHMS.RR)
               (fill "P2" " 12.7" "0x10" EmptyString ++ [ClickAdd]))
  = [P "P1" 0 5; P "P2" 12 16].
Proof.
  rewrite (type_and_add
             (mkComponent [P "P1" 0 5] (Form.mk "zz" "9" EmptyString "4")
                          SCHEDULING_ALGORITHMS.RR)
             "P2" " 12.7" "0x10" EmptyString); [reflexivity..|].
  simpl. intros [H|[]]. discriminate.
Defined.

(** ** Beyond the claims: what every reachable state satisfies *)

Lemma map_annotate_Forall (Q : Process -> Prop) t l :
  (forall t p, Q p -> Q (snd (annotate t p))) ->
  Forall Q l -> Forall Q (map_annotate t l).
Proof.
  intros HQ H. revert t. induction H as [|p l Hp _ IH]; intros t; [done|].
  cbn [map_annotate]. specialize (HQ t p Hp).
  destruct (annotate t p) as [t' q]. constructor; [done | apply IH].
Qed.

(** A property of the stored processes that holds of the record built
    by [addProcess] and survives the [map] callback holds in every
    reachable state. *)
Lemma session_Forall (Q : Process -> Prop) evs :
  (forall f, Q (processToAdd f)) ->
  (forall t p, Q p -> Q (snd (annotate t p))) ->
  Forall Q (processes (session evs)).
Proof.
  intros Hadd Hrun.
  induction evs as [|e evs IH] using rev_ind; [constructor|].
  rewrite session_snoc. set (c := session evs) in *.
  destruct e as [name value| |x|a|]; simpl; try done.
  - rewrite addProcess_cases. simpl.
    destruct (required_filled (newProcess c)); [|done].
    destruct (some_id _ _); [done|]. simpl.
    apply Forall_app. split; [done|]. by repeat constructor.
  - rewrite Forall_forall in *. intros p Hp. apply IH.
    apply list_elem_of_In in Hp. apply list_elem_of_In.
    by apply List.filter_In in Hp as [Hp _].
  - unfold clickRunSimulation. destruct (runButton_disabled c); [done|].
    unfold runSimulation. destruct (String.eqb _ _); [|done]. simpl.
    apply map_annotate_Forall; [done|]. by apply Array_sort_Forall.
Qed.

(** No handler ever moves a process out of the state New: in every
    reachable state, also after simulations, every stored process has
    [state = New]. *)
Theorem state_stays_new (evs : list Event) :
  Forall (fun p => PROCESS_STATES (state p) = "New") (processes (session evs)).
Proof. by apply session_Forall. Qed.

(** In every reachable state each stored process carries none of the
    four metrics or all four, and then they fit together:
    [completionTime = startTime + burstTime],
    [turnAroundTime = completionTime - arrivalTime] and
    [waitingTime = startTime - arrivalTime] in the arithmetic of the
    code.  Only a run touches them: any other event leaves every
    stored process it does not remove in the registry as the very same
    record, metrics included, and the only record it can bring in is
    the one [addProcess] builds, which has no metrics. *)
Theorem metrics_all_or_none (evs : list Event) (e : Event) :
  e <> ClickRun ->
  let c := session evs in
  Forall metrics_consistent (processes c)
  /\ (forall p, In p (processes c) -> e <> ClickRemove (id p) ->
        In p (processes (handle c e)))
  /\ (forall q, In q (processes (handle c e)) ->
        In q (processes c)
        \/ (e = ClickAdd /\ q = processToAdd (newProcess c)
            /\ completionTime q = None)).
Proof.
  intros He c. split; [|split].
  - apply session_Forall.
    + intros f. by left.
    + intros t p _. right. by exists (Math_max t (arrivalTime p)).
  - intros p Hp Hrm. destruct e as [name value| |x|a|]; simpl; try done.
    + rewrite addProcess_cases. simpl.
      destruct (required_filled _); [|done].
      destruct (some_id _ _); [done|]. simpl. apply in_app_iff. by left.
    + apply List.filter_In. split; [done|].
      destruct (String.eqb_spec (id p) x) as [<-|]; done.
  - intros q Hq. destruct e as [name value| |x|a|]; simpl in Hq;
      try by left.
    + rewrite addProcess_cases in Hq. simpl in Hq.
      destruct (required_filled _); [|by left].
      destruct (some_id _ _); [by left|]. simpl in Hq.
      apply in_app_iff in Hq as [Hq|[<-|[]]]; [by left | by right].
    + left. by apply List.filter_In in Hq as [Hq _].
Qed.

Lemma metrics_all_or_none_witness :
  let evs := fill "P1" "0" "5" EmptyString ++ [ClickAdd]
             ++ fill "P2" "1" "3" EmptyString ++ [ClickAdd; ClickRun] in
  map (fun q => (id q, completionTime q))
      (processes (handle (session evs) (ClickRemove "P1")))
  = [("P2", Some (Num 8))]
  /\ Forall metrics_consistent (processes (session evs)).
Proof.
  intros evs. split; [reflexivity|].
  apply (metrics_all_or_none evs (ClickRemove "P1")). discriminate.
Defined.

Lemma session_algorithm evs : algorithm (session evs) = last_selected evs.
Proof.
  induction evs as [|e evs IH] using rev_ind; [done|].
  rewrite session_snoc. unfold last_selected in *. rewrite foldl_app. simpl.
  rewrite <- IH. set (c := session evs).
  destruct e as [name value| |x|a|]; simpl; try done.
  - rewrite addProcess_cases. simpl.
    destruct (required_filled _); [|done]. by destruct (some_id _ _).
  - unfold clickRunSimulation. destruct (runButton_disabled c); [done|].
    unfold runSimulation. by destruct (String.eqb _ _).
Qed.

(** Only the [select] changes the selector: after any session it is
    the value last chosen there, FCFS when nothing was chosen.  When
    every choice is one of the four options offered, the selector is
    one of the four, and a click on the enabled Run button then
    either installs the FCFS result or raises the not-implemented
    alert with the component unchanged. *)
Theorem selector_follows_select (evs : list Event) :
  Forall picks_option evs ->
  let c := session evs in
  algorithm c = last_selected evs
  /\ In (algorithm c) selectOptions
  /\ (runSimulation c
        = (Returned, setProcesses c (simulateFCFS (processes c)))
      \/ runSimulation c
         = (Alerted "Selected algorithm not implemented yet", c)).
Proof.
  intros Hevs c. split; [apply session_algorithm|]. split.
  - unfold c. rewrite session_algorithm. unfold last_selected.
    induction evs as [|e evs IH] using rev_ind; [by left|].
    apply Forall_app in Hevs as [Hevs [He _]%Forall_cons].
    rewrite foldl_app. simpl. destruct e; try by apply IH. exact He.
  - destruct (String.eqb_spec (algorithm c) SCHEDULING_ALGORITHMS.FCFS).
    + left. by apply runSimulation_FCFS.
    + right. by apply runSimulation_other.
Qed.

Lemma selector_follows_select_witness :
  let evs := [SelectAlgorithm SCHEDULING_ALGORITHMS.SJF; ClickRun;
              Input "id" "P1"; SelectAlgorithm SCHEDULING_ALGORITHMS.RR;
              ClickAdd] in
  algorithm (session evs) = SCHEDULING_ALGORITHMS.RR.
Proof.
  intros evs. apply (selector_follows_select evs).
  repeat constructor; simpl; tauto.
Defined.

(** ** Beyond the claims: the engine *)

Lemma sort_insert_same_inputs x x' l l' :
  same_inputs x x' -> Forall2 same_inputs l l' ->
  Forall2 same_inputs (sort_insert by_arrival x l)
                      (sort_insert by_arrival x' l').
Proof.
  intros Hx. induction 1 as [|y y' l l' Hy Hl IH]; simpl.
  - constructor; [done | constructor].
  - assert (sorts_after by_arrival x' y' = sorts_after by_arrival x y) as ->.
    { unfold sorts_after, by_arrival.
      destruct Hx as (_ & -> & _), Hy as (_ & -> & _). done. }
    destruct (sorts_after by_arrival x y).
    + constructor; [done | exact IH].
    + constructor; [done | by constructor].
Qed.

Lemma Array_sort_same_inputs l l' :
  Forall2 same_inputs l l' ->
  Forall2 same_inputs (Array_sort by_arrival l) (Array_sort by_arrival l').
Proof.
  induction 1 as [|x x' l l' Hx Hl IH]; simpl; [constructor|].
  by apply sort_insert_same_inputs.
Qed.

Lemma simulateFCFS_ext l l' :
  Forall2 same_inputs l l' -> simulateFCFS l' = simulateFCFS l.
Proof.
  intros H. unfold simulateFCFS.
  by apply map_annotate_ext, Array_sort_same_inputs.
Qed.

(** A run reads [id], [arrivalTime], [burstTime], [priority] and
    [state] only: two registries that agree on these, position by
    position, get the same result, whatever metrics an earlier run
    left on either. *)
Theorem run_ignores_old_metrics (l l' : list Process) :
  Forall2 same_inputs l l' -> simulateFCFS l' = simulateFCFS l.
Proof.
  intros H. unfold simulateFCFS. apply map_annotate_ext.
  by apply Array_sort_same_inputs.
Qed.

Lemma run_ignores_old_metrics_witness :
  simulateFCFS [mkProcess "P1" (Num 3) (Num 2) (Num 0) NEW (Some (Num 40))
                          (Some (Num 42)) (Some NaN) None;
                P "P2" 0 1]
  = simulateFCFS [P "P1" 3 2; P "P2" 0 1].
Proof.
  apply (run_ignores_old_metrics [P "P1" 3 2; P "P2" 0 1]).
  repeat constructor.
Defined.

Lemma filter_swap {A} (f g : A -> bool) l :
  List.filter f (List.filter g l) = List.filter g (List.filter f l).
Proof.
  induction l as [|x l IH]; [done|]. simpl.
  destruct (f x) eqn:Ef, (g x) eqn:Eg; simpl; rewrite ?Ef, ?Eg, IH; done.
Qed.

Lemma filter_sorted (f : Process -> bool) l :
  StronglySorted arrival_le l -> StronglySorted arrival_le (List.filter f l).
Proof.
  induction 1 as [|x l Hs IH Hx]; simpl; [constructor|].
  destruct (f x); [|done]. constructor; [done|].
  rewrite Forall_forall in *. intros y Hy. apply Hx.
  apply list_elem_of_In in Hy. apply list_elem_of_In.
  by apply List.filter_In in Hy as [Hy _].
Qed.

Lemma filter_Forall {A} (Q : A -> Prop) (f : A -> bool) l :
  Forall Q l -> Forall Q (List.filter f l).
Proof.
  induction 1 as [|x l Hx _ IH]; simpl; [done|].
  destruct (f x); [by constructor | done].
Qed.

(** Taking processes out commutes with the stable sort. *)
Lemma Array_sort_filter (f : Process -> bool) l :
  Forall has_arrival l ->
  Array_sort by_arrival (List.filter f l)
  = List.filter f (Array_sort by_arrival l).
Proof.
  intros Hl. symmetry. apply Array_sort_unique.
  - by apply filter_Forall.
  - by apply filter_sorted, Array_sort_sorted.
  - intros t. rewrite filter_swap, Array_sort_stable by done.
    apply filter_swap.
Qed.

(** Sorting a sorted part again together with more elements is sorting
    everything at once. *)
Lemma Array_sort_app_sorted l more :
  Forall has_arrival l -> Forall has_arrival more ->
  Array_sort by_arrival (Array_sort by_arrival l ++ more)
  = Array_sort by_arrival (l ++ more).
Proof.
  intros Hl Hm. apply Array_sort_unique.
  - apply Forall_app. by split.
  - apply Array_sort_sorted, Forall_app. split; [|done].
    by apply Array_sort_Forall.
  - intros t. rewrite Array_sort_stable
      by (apply Forall_app; split; [by apply Array_sort_Forall|done]).
    by rewrite !List.filter_app, Array_sort_stable.
Qed.

(** Running, adding processes and running again gives the schedule of
    adding them first and running once: nothing of the first run, its
    metrics or its reordering, shows in the second.  Arrival times are
    numbers. *)
Theorem run_add_run (ps more : list Process) :
  Forall has_arrival ps -> Forall has_arrival more ->
  simulateFCFS (simulateFCFS ps ++ more) = simulateFCFS (ps ++ more).
Proof.
  intros Hps Hm.
  rewrite (simulateFCFS_ext (Array_sort by_arrival ps ++ more)).
  - unfold simulateFCFS. by rewrite Array_sort_app_sorted.
  - apply Forall2_app; [apply map_annotate_same_inputs|].
    clear. induction more; constructor; [by repeat split | done].
Qed.

Lemma run_add_run_witness :
  map (fun q => (id q, completionTime q))
      (simulateFCFS (simulateFCFS [P "P2" 4 3; P "P1" 0 5] ++ [P "P3" 1 2]))
  = [("P1", Some (Num 5)); ("P3", Some (Num 7)); ("P2", Some (Num 10))]
  /\ simulateFCFS (simulateFCFS [P "P2" 4 3; P "P1" 0 5] ++ [P "P3" 1 2])
     = simulateFCFS ([P "P2" 4 3; P "P1" 0 5] ++ [P "P3" 1 2]).
Proof.
  split; [reflexivity|].
  apply (run_add_run [P "P2" 4 3; P "P1" 0 5] [P "P3" 1 2]);
    repeat constructor.
Defined.

Lemma removeProcess_same_inputs x l l' :
  Forall2 same_inputs l l' ->
  Forall2 same_inputs
    (List.filter (fun process => negb (String.eqb (id process) x)) l)
    (List.filter (fun process => negb (String.eqb (id process) x)) l').
Proof.
  apply filter_Forall2_same_inputs. by intros p q (-> & _).
Qed.

Lemma same_inputs_join l a b :
  Forall2 same_inputs l a -> Forall2 same_inputs l b ->
  Forall2 same_inputs a b.
Proof.
  intros Ha. revert b.
  induction Ha as [|x y l a Hxy _ IH]; intros b Hb.
  - apply Forall2_nil_inv_l in Hb as ->. constructor.
  - apply Forall2_cons_inv_l in Hb as (z & b' & Hxz & Hb & ->).
    constructor; [|by apply IH].
    destruct Hxy as (E1 & E2 & E3 & E4 & E5), Hxz as (F1 & F2 & F3 & F4 & F5).
    repeat split; congruence.
Qed.

(** Removing a process and running shows the same processes in the
    same order as running and then removing it; the two differ only in
    that the second keeps the metrics computed with the removed process
    still there, and a further run makes them equal.  Arrival times
    are numbers. *)
Theorem remove_and_run_commute (x : string) (c : Component) :
  algorithm c = SCHEDULING_ALGORITHMS.FCFS ->
  Forall has_arrival (processes c) ->
  let removed_then_run := snd (runSimulation (removeProcess x c)) in
  let run_then_removed := removeProcess x (snd (runSimulation c)) in
  Forall2 same_inputs (processes removed_then_run)
                      (processes run_then_removed)
  /\ snd (runSimulation run_then_removed) = removed_then_run.
Proof.
  intros Halg Hps. rewrite !runSimulation_FCFS by done. simpl.
  set (keep := fun process => negb (String.eqb (id process) x)).
  assert (Forall2 same_inputs (simulateFCFS (List.filter keep (processes c)))
                  (List.filter keep (simulateFCFS (processes c)))) as H.
  { unfold simulateFCFS at 1. rewrite Array_sort_filter by done.
    eapply same_inputs_join; [apply map_annotate_same_inputs|].
    apply removeProcess_same_inputs, map_annotate_same_inputs. }
  split; [exact H|].
  rewrite runSimulation_FCFS by done. simpl. fold keep.
  rewrite (simulateFCFS_ext _ _ H), simulateFCFS_idempotent
    by by apply filter_Forall.
  done.
Qed.

Lemma remove_and_run_commute_witness :
  let c := mkComponent [P "P3" 2 8; P "P1" 0 5; P "P2" 1 3] Form.empty
                       SCHEDULING_ALGORITHMS.FCFS in
  map (fun q => (id q, completionTime q))
      (processes (removeProcess "P1" (snd (runSimulation c))))
  = [("P2", Some (Num 8)); ("P3", Some (Num 16))]
  /\ map (fun q => (id q, completionTime q))
         (processes (snd (runSimulation (removeProcess "P1" c))))
     = [("P2", Some (Num 4)); ("P3", Some (Num 12))]
  /\ snd (runSimulation (removeProcess "P1" (snd (runSimulation c))))
     = snd (runSimulation (removeProcess "P1" c)).
Proof.
  intros c. split; [reflexivity|]. split; [reflexivity|].
  apply (remove_and_run_commute "P1" c); [reflexivity | repeat constructor].
Defined.

Lemma map_annotate_slices t l :
  Forall runnable l -> Z.abs t + total_time l <= 2 ^ 53 ->
  let out := map_annotate (Num t) l in
  Forall slice_is_burst out
  /\ Forall (fun q => exists s, startTime q = Some (Num s) /\ t <= s) out
  /\ StronglySorted runs_before out.
Proof.
  intros H. revert t.
  induction H as [|p l (a & b & Ha & Hb & Hpos) _ IH]; intros t Hbound.
  - repeat split; constructor.
  - pose proof (total_time_nonneg l) as Hl.
    cbn [total_time foldr] in Hbound. fold (total_time l) in Hbound.
    unfold magnitude in Hbound. rewrite Ha, Hb in Hbound.
    cbn [map_annotate annotate]. rewrite Ha, Hb.
    cbn [Math_max num_add fst snd].
    rewrite (to_number_exact (Z.max t a + b)) by lia.
    destruct (IH (Z.max t a + b)) as (IH1 & IH2 & IH3); [lia|].
    repeat split.
    + constructor; [|done]. exists (Z.max t a), (Z.max t a + b), b.
      simpl. repeat split; try done; lia.
    + constructor.
      * exists (Z.max t a). simpl. split; [done | lia].
      * eapply Forall_impl; [exact IH2|]. intros q (s & Hs & Hle).
        exists s. split; [done | lia].
    + constructor; [done|].
      eapply Forall_impl; [exact IH2|]. intros q (s & Hs & Hle).
      by exists (Z.max t a + b), s.
Qed.

(** One CPU, no time invented or lost: when the times are integers, no
    burst is negative and the absolute values of all times sum to at
    most 2^53, so that the sums of the run are exact, each process of
    the result occupies a slice [startTime, completionTime) exactly as
    long as its burst, no slice starts before time 0, and the slices
    follow one another in the order of the result without overlapping,
    each being over when any later one begins. *)
Theorem slices_do_not_overlap (ps : list Process) :
  Forall runnable ps ->
  total_time ps <= safe_integer ->
  let out := simulateFCFS ps in
  Forall slice_is_burst out
  /\ Forall (fun q => exists s, startTime q = Some (Num s) /\ 0 <= s) out
  /\ StronglySorted runs_before out.
Proof.
  intros H Hbound. apply map_annotate_slices; [by apply Array_sort_Forall|].
  by rewrite (total_time_perm _ _ (Array_sort_perm by_arrival ps)).
Qed.

Lemma slices_do_not_overlap_witness :
  let ps := [P "P3" 9 2; P "P1" 0 5; P "P2" 1 0] in
  map (fun q => (id q, startTime q, completionTime q)) (simulateFCFS ps)
  = [("P1", Some (Num 0), Some (Num 5)); ("P2", Some (Num 5), Some (Num 5));
     ("P3", Some (Num 9), Some (Num 11))]
  /\ StronglySorted runs_before (simulateFCFS ps).
Proof.
  intros ps. split; [reflexivity|].
  apply (slices_do_not_overlap ps); [|vm_compute; discriminate].
  repeat constructor; eexists _, _; repeat split; try reflexivity; lia.
Defined.

Lemma ids_map_annotate t l : ids (map_annotate t l) = ids l.
Proof.
  unfold ids. revert t. induction l as [|p l IH]; intros t; [done|].
  simpl. by rewrite IH.
Qed.

Lemma same_ids_same_list (l1 l2 : list Process) :
  l1 ≡ₚ l2 -> NoDup (ids l2) -> ids l1 = ids l2 -> l1 = l2.
Proof.
  revert l2. induction l1 as [|x l1 IH]; intros [|y l2] Hp Hnd Hids; try done.
  unfold ids in *. simpl in *. injection Hids as Hxy Hids.
  apply NoDup_cons in Hnd as [Hy Hnd].
  assert (x = y) as ->.
  { assert (x ∈ y :: l2) as Hx by (rewrite <- Hp; by left).
    apply elem_of_cons in Hx as [Hx|Hx]; [done|]. exfalso. apply Hy.
    rewrite <- Hxy. by apply list_elem_of_fmap_2. }
  f_equal. apply IH; [|done|done]. by apply Permutation_cons_inv in Hp.
Qed.

(** A run keeps the order of the registry exactly when the registry is
    already in ascending order of arrival (in particular when all
    processes arrive together); otherwise the cards change places.
    Ids are distinct, as they are in every reachable state, and arrival
    times are numbers. *)
Theorem run_keeps_order_iff_sorted (ps : list Process) :
  NoDup (ids ps) -> Forall has_arrival ps ->
  ids (simulateFCFS ps) = ids ps <-> StronglySorted arrival_le ps.
Proof.
  intros Hnd Hps. unfold simulateFCFS. rewrite ids_map_annotate. split.
  - intros Hids.
    rewrite <- (same_ids_same_list (Array_sort by_arrival ps) ps);
      [by apply Array_sort_sorted | apply Array_sort_perm | done | done].
  - intros Hs. by rewrite Array_sort_id.
Qed.

Lemma run_keeps_order_iff_sorted_witness :
  ids (simulateFCFS [P "P1" 2 5; P "P2" 2 3; P "P3" 4 1]) = ["P1"; "P2"; "P3"].
Proof.
  apply (run_keeps_order_iff_sorted [P "P1" 2 5; P "P2" 2 3; P "P3" 4 1]).
  - apply NoDup_ListNoDup. repeat constructor; simpl; intuition discriminate.
  - repeat constructor.
  - repeat first [apply SSorted_cons | apply SSorted_nil
                 | apply List.Forall_cons | apply List.Forall_nil];
      unfold arrival_le; simpl; lia.
Defined.

(** ** Beyond the claims: what the form fields are parsed to *)

(** The ten cases of a digit [d] with [d < 10] in the context. *)
Tactic Notation "digit_cases" ident(d) :=
  destruct d as [|d]; [|destruct d as [|d]; [|destruct d as [|d];
    [|destruct d as [|d]; [|destruct d as [|d]; [|destruct d as [|d];
    [|destruct d as [|d]; [|destruct d as [|d]; [|destruct d as [|d];
    [|destruct d as [|d]; [|exfalso; lia]]]]]]]]]].

Lemma digit_value_digit_char d :
  (d < 10)%nat -> digit_value 10 (digit_char d) = Some (Z.of_nat d).
Proof. intros H. digit_cases d; reflexivity. Qed.

Lemma parse_digits_numeral ds acc rest :
  Forall (fun d => (d < 10)%nat) ds -> ends_numeral rest ->
  parse_digits 10 acc (numeral ds ++ rest)
  = match ds with
    | [] => acc
    | _ => Some (foldl (fun a d => a * 10 + Z.of_nat d) (default 0 acc) ds)
    end.
Proof.
  intros Hds Hrest. revert acc.
  induction Hds as [|d ds Hd _ IH]; intros acc.
  - simpl. by destruct Hrest as [->|[r ->]].
  - cbn [numeral foldr String.append parse_digits].
    fold (numeral ds). rewrite (digit_value_digit_char d Hd), IH.
    by destruct ds.
Qed.

Lemma trim_start_plain c r :
  is_white_space c = false -> (nat_of_ascii c < 128)%nat ->
  trim_start (String c r) = String c r.
Proof.
  intros Hw Hc. cbn [trim_start]. rewrite Hw.
  destruct r as [|c2 r2]; [done|].
  assert (is_white_space2 c c2 = false) as ->.
  { unfold is_white_space2.
    destruct (Nat.eqb_spec (nat_of_ascii c) 194); [lia | done]. }
  destruct r2 as [|c3 r3]; [done|].
  assert (is_white_space3 c c2 c3 = false) as ->; [|done].
  unfold is_white_space3.
  destruct (Nat.eqb_spec (nat_of_ascii c) 225); [lia|].
  destruct (Nat.eqb_spec (nat_of_ascii c) 226); [lia|].
  destruct (Nat.eqb_spec (nat_of_ascii c) 227); [lia|].
  destruct (Nat.eqb_spec (nat_of_ascii c) 239); [lia | done].
Qed.

Lemma numeral_head ds rest :
  ds <> [] -> Forall (fun d => (d < 10)%nat) ds -> ends_numeral rest ->
  let s := (numeral ds ++ rest)%string in
  trim_start s = s /\ strip_sign s = (1, s) /\ strip_prefix s = (10, s).
Proof.
  intros Hne Hds Hrest.
  destruct Hds as [|d ds Hd Hds]; [done|].
  cbn [numeral foldr String.append]. fold (numeral ds). split.
  { assert (is_white_space (digit_char d) = false
            /\ (nat_of_ascii (digit_char d) < 128)%nat) as [Hw Hc]
      by (digit_cases d; (split; [reflexivity | vm_compute; lia])).
    by apply trim_start_plain. }
  destruct Hds as [|d2 ds Hd2 _].
  - destruct Hrest as [->|[r ->]]; digit_cases d; by split.
  - cbn [numeral foldr String.append]. fold (numeral ds).
    generalize (numeral ds ++ rest)%string. intros r.
    digit_cases d; try by split.
    digit_cases d2; by split.
Qed.

Lemma foldl_digits_nonneg ds acc :
  0 <= acc -> 0 <= foldl (fun a d => a * 10 + Z.of_nat d) acc ds.
Proof.
  revert acc. induction ds as [|d ds IH]; intros acc Hacc; [done|].
  simpl. apply IH. lia.
Qed.

Lemma numeral_value_nonneg ds : 0 <= numeral_value ds.
Proof. by apply foldl_digits_nonneg. Qed.

(** [parseInt] on the text of a number: a non-empty run of decimal
    digits denoting an integer up to 2^53, alone or followed by a
    fractional part, is read as that integer (the fraction is dropped,
    not rounded), and with a minus sign in front as its opposite.  This
    is what [addProcess] stores as [arrivalTime], [burstTime] and
    [priority].  (Beyond 2^53 [parseInt] gives the nearest double.) *)
Theorem parseInt_reads_numerals (ds : list nat) (rest : string) :
  ds <> [] -> Forall (fun d => (d < 10)%nat) ds -> ends_numeral rest ->
  numeral_value ds <= safe_integer ->
  parseInt (numeral ds ++ rest) = Num (numeral_value ds)
  /\ parseInt (String "-" (numeral ds ++ rest)) = Num (- numeral_value ds).
Proof.
  intros Hne Hds Hrest Hbound.
  destruct (numeral_head ds rest Hne Hds Hrest) as (Ht & Hs & Hp).
  pose proof (parse_digits_numeral ds None rest Hds Hrest) as Hd.
  pose proof (numeral_value_nonneg ds) as Hpos.
  unfold safe_integer in Hbound.
  destruct ds as [|d ds]; [done|]. split.
  - unfold parseInt. rewrite Ht, Hs, Hp, Hd.
    change (foldl _ _ _) with (numeral_value (d :: ds)).
    rewrite Z.mul_1_l. apply to_number_exact. lia.
  - unfold parseInt.
    rewrite trim_start_plain by (reflexivity || (vm_compute; lia)).
    cbn [strip_sign]. rewrite Hp, Hd.
    change (foldl _ _ _) with (numeral_value (d :: ds)).
    replace (-1 * numeral_value (d :: ds)) with (- numeral_value (d :: ds))
      by lia.
    apply to_number_exact. lia.
Qed.

Lemma parseInt_reads_numerals_witness :
  parseInt "407.95" = Num 407 /\ parseInt "-407.95" = Num (-407).
Proof.
  apply (parseInt_reads_numerals [4; 0; 7]%nat ".95");
    [discriminate | repeat constructor | right; by eexists
    | vm_compute; discriminate].
Defined.

(** ** Beyond the claims: the rendered list *)

Lemma simulateFCFS_valid ps :
  Forall valid_input ps -> Forall valid_input (simulateFCFS ps).
Proof.
  intros Hps.
  apply (Forall2_Forall_r same_inputs valid_input (Array_sort by_arrival ps));
    [apply map_annotate_same_inputs|].
  apply Array_sort_Forall. eapply Forall_impl; [exact Hps|].
  intros p (a & b & Ha & Hb & H) q (_ & Ha' & Hb' & _).
  exists a, b. by rewrite Ha', Hb'.
Qed.

Lemma simulateFCFS_completes_late ps :
  Forall valid_input ps -> total_time ps <= 2 ^ 53 ->
  Forall (fun q => exists ct ta w,
            completionTime q = Some (Num ct)
            /\ turnAroundTime q = Some (Num ta)
            /\ waitingTime q = Some (Num w) /\ 0 < ct)
         (simulateFCFS ps).
Proof.
  intros Hps Hbound.
  pose proof (simulateFCFS_valid ps Hps) as Hv.
  pose proof (simulateFCFS_exact ps (valid_input_has_times _ Hps) Hbound) as Ht.
  rewrite Forall_forall in Ht, Hv. apply Forall_forall. intros q Hq.
  destruct (walked_within_metrics _ q Hbound (Ht q Hq))
    as (a & b & s & ct & ta & w & Ha & Hb & Hs & Hc & Hta
        & Hw & E1 & E2 & E3 & E4 & Hle).
  destruct (Hv q Hq) as (a' & b' & Ha' & Hb' & Hpos).
  exists ct, ta, w. repeat split; try done.
  assert (a' = a) by congruence. assert (b' = b) by congruence. lia.
Qed.

(** Whatever the size of the times: from a clock that is not negative,
    valid inputs get a completion time above 0. *)
Lemma map_annotate_positive t l :
  match t with Num z => 0 <= z | Infinity => True | _ => False end ->
  Forall valid_input l ->
  Forall (fun q => exists ct ta w,
            completionTime q = Some ct /\ turnAroundTime q = Some ta
            /\ waitingTime q = Some w /\ is_positive ct)
         (map_annotate t l).
Proof.
  intros Ht H. revert t Ht.
  induction H as [|p l (a & b & Ha & Hb & Ha0 & Hb0) _ IH]; intros t Ht;
    [done|].
  cbn [map_annotate annotate]. rewrite Ha, Hb.
  assert (is_positive (num_add (Math_max t (Num a)) (Num b))) as Hpos.
  { destruct t as [z| | |]; try done. cbn [Math_max num_add].
    pose proof (to_number_sign (Z.max z a + b)) as Hs.
    destruct (to_number (Z.max z a + b)) as [m| | |]; simpl; try done; [|lia].
    destruct (Z.sgn_spec m) as [[? Hm]|[[? Hm]|[? Hm]]],
      (Z.sgn_spec (Z.max z a + b)) as [[? Hz]|[[? Hz]|[? Hz]]]; lia. }
  constructor.
  - eexists _, _, _. simpl. by repeat split.
  - apply IH. destruct (num_add _ _); simpl in *; try done. lia.
Qed.

(** After a run on processes with [arrivalTime >= 0] and
    [burstTime > 0] the list shows one card per process and every card
    shows its three metric lines: each completion time is above 0 (a
    positive integer, or the infinity a sum overflows to), so the guard
    [process.completionTime && ...] lets the block through.  When the
    times sum to at most 2^53 the three metrics shown are integers. *)
Theorem cards_show_metrics_after_run (c c' : Component) :
  processes c <> [] ->
  Forall valid_input (processes c) ->
  runSimulation c = (Returned, c') ->
  exists cards,
    renderProcessList c' = Grid cards
    /\ length cards = length (processes c)
    /\ Forall (fun k => exists ct ta w,
                 metrics k = MetricLines (Some ct) (Some ta) (Some w)
                 /\ is_positive ct)
              cards
    /\ (total_time (processes c) <= safe_integer ->
        Forall (fun k => exists ct ta w,
                  metrics k = MetricLines (Some (Num ct)) (Some (Num ta))
                                          (Some (Num w))
                  /\ 0 < ct)
               cards).
Proof.
  intros Hne Hps [_ ->]%runSimulation_Returned.
  exists (map renderCard (simulateFCFS (processes c))).
  assert (length (simulateFCFS (processes c)) = length (processes c)) as Hlen
    by (unfold simulateFCFS; by rewrite map_annotate_length, Array_sort_length).
  unfold renderProcessList. simpl. rewrite Hlen, length_map, Hlen.
  split; [by destruct (processes c)|]. split; [done|]. split.
  - apply Forall_map. eapply Forall_impl.
    { apply (map_annotate_positive (Num 0)); [done|].
      by apply Array_sort_Forall. }
    intros q (ct & ta & w & Hc & Hta & Hw & Hpos). exists ct, ta, w.
    split; [|done]. simpl. unfold metricsBlock. rewrite Hc, Hta, Hw.
    destruct ct as [z| | |]; try done.
    simpl in Hpos. destruct (Z.eqb_spec z 0); [lia | done].
  - intros Hbound. apply Forall_map. eapply Forall_impl;
      [by apply simulateFCFS_completes_late|].
    intros q (ct & ta & w & Hc & Hta & Hw & Hpos). exists ct, ta, w.
    split; [|done]. simpl. unfold metricsBlock. rewrite Hc, Hta, Hw.
    destruct (Z.eqb_spec ct 0); [lia | done].
Qed.

Lemma cards_show_metrics_after_run_witness :
  let c := mkComponent [P "P2" 1 3; P "P1" 0 5] Form.empty
                       SCHEDULING_ALGORITHMS.FCFS in
  exists cards,
    renderProcessList (snd (runSimulation c)) = Grid cards
    /\ length cards = 2%nat
    /\ Forall (fun k => exists ct ta w,
                 metrics k = MetricLines (Some ct) (Some ta) (Some w)
                 /\ is_positive ct)
              cards
    /\ (total_time (processes c) <= safe_integer ->
        Forall (fun k => exists ct ta w,
                  metrics k = MetricLines (Some (Num ct)) (Some (Num ta))
                                          (Some (Num w))
                  /\ 0 < ct)
               cards).
Proof.
  intros c. apply (cards_show_metrics_after_run c (snd (runSimulation c)));
    [discriminate | | reflexivity].
  repeat constructor; eexists _, _; repeat split; try reflexivity; lia.
Defined.

(** Until the Run button is clicked no card shows a metric: in a
    session without a run, every stored process has none of the four
    metrics and its card renders nothing in their place. *)
Theorem no_metrics_before_run (evs : list Event) :
  ~ In ClickRun evs ->
  Forall (fun p => completionTime p = None /\ metricsBlock p = Nothing)
         (processes (session evs)).
Proof.
  induction evs as [|e evs IH] using rev_ind; [constructor|].
  intros Hrun. rewrite session_snoc.
  assert (~ In ClickRun evs) as Hevs
    by (intros H; apply Hrun, in_app_iff; by left).
  specialize (IH Hevs). set (c := session evs) in *.
  destruct e as [name value| |x|a|]; simpl; try done.
  - rewrite addProcess_cases. simpl.
    destruct (required_filled (newProcess c)); [|done].
    destruct (some_id _ _); [done|]. simpl.
    apply Forall_app. split; [done|]. by repeat constructor.
  - by apply filter_Forall.
  - exfalso. apply Hrun, in_app_iff. right. by left.
Qed.

Lemma no_metrics_before_run_witness :
  let evs := fill "P1" "0" "5" EmptyString ++ [ClickAdd; ClickRemove "P7"]
             ++ fill "P2" "1" "3" EmptyString ++ [ClickAdd] in
  ids (processes (session evs)) = ["P1"; "P2"]
  /\ Forall (fun p => completionTime p = None /\ metricsBlock p = Nothing)
            (processes (session evs)).
Proof.
  intros evs. split; [reflexivity|].
  apply (no_metrics_before_run evs). simpl. intuition discriminate.
Defined.

(** The list as rendered in any reachable state.  Either the registry
    is empty: the placeholder is shown and a click on Run does nothing.
    Or there is one card per process, in the order of the registry,
    the cards have distinct keys, each Remove button passes the id its
    card is keyed by, and a click on Run reaches the handler. *)
Theorem rendered_list (evs : list Event) :
  let c := session evs in
  match renderProcessList c with
  | NoProcessesYet => processes c = [] /\ clickRunSimulation c = None
  | Grid cards =>
      cards = map renderCard (processes c)
      /\ NoDup (map key cards)
      /\ map removes cards = map key cards
      /\ clickRunSimulation c = Some (runSimulation c)
  end.
Proof.
  intros c. pose proof (session_NoDup evs) as Hnd. fold c in Hnd.
  unfold renderProcessList, clickRunSimulation, runButton_disabled.
  destruct (processes c) as [|p ps] eqn:E; simpl; [done|].
  assert (forall l, map key (map renderCard l) = map id l) as Hkey
    by (intros l; induction l; simpl; congruence).
  assert (forall l, map removes (map renderCard l) = map id l) as Hrem
    by (intros l; induction l; simpl; congruence).
  rewrite Hkey, Hrem. by repeat split.
Qed.

(** ** Beyond the claims: a field that is not a number *)

Lemma map_annotate_NaN l :
  Forall (fun q => startTime q = Some NaN /\ completionTime q = Some NaN
                   /\ metricsBlock q = Bare NaN)
         (map_annotate NaN l).
Proof. induction l as [|p l IH]; simpl; by constructor. Qed.

Lemma annotate_not_a_time t p :
  arrivalTime p = NaN \/ burstTime p = NaN -> fst (annotate t p) = NaN.
Proof.
  unfold annotate. simpl. intros [-> | ->].
  - by destruct t, (burstTime p).
  - by destruct (Math_max t (arrivalTime p)).
Qed.

Lemma map_annotate_drop t l1 l :
  exists t', drop (length l1) (map_annotate t (l1 ++ l)) = map_annotate t' l.
Proof.
  revert t. induction l1 as [|p l1 IH]; intros t; [by exists t|].
  simpl. apply IH.
Qed.

(** [parseInt] gives [NaN] for a field without a leading number, and
    the run does not stop there: [currentTime] becomes [NaN] at the
    first process, in sorted order, whose arrival or burst time is
    [NaN], and stays so; that process gets [completionTime = NaN], and
    every process after it gets [startTime = NaN] and
    [completionTime = NaN], its card showing a bare [NaN] instead of
    the metric lines. *)
Theorem nan_spreads (ps l1 l2 : list Process) (p : Process) :
  Array_sort by_arrival ps = l1 ++ p :: l2 ->
  arrivalTime p = NaN \/ burstTime p = NaN ->
  (exists q, simulateFCFS ps !! length l1 = Some q
             /\ id q = id p /\ completionTime q = Some NaN)
  /\ Forall (fun q => startTime q = Some NaN /\ completionTime q = Some NaN
                      /\ metricsBlock q = Bare NaN)
            (drop (S (length l1)) (simulateFCFS ps)).
Proof.
  intros Hsort Hp. unfold simulateFCFS. rewrite Hsort.
  destruct (map_annotate_drop (Num 0) l1 (p :: l2)) as (t & Ht).
  cbn [map_annotate] in Ht.
  pose proof (annotate_not_a_time t p Hp) as Hclock.
  destruct (annotate t p) as [t' q] eqn:E. simpl in Hclock. subst t'.
  assert (id q = id p /\ completionTime q = Some (fst (annotate t p)))
    as [Hid Hc] by (unfold annotate in E; by injection E as _ <-).
  rewrite (annotate_not_a_time t p Hp) in Hc. split.
  - exists q. split; [|done].
    rewrite <- (Nat.add_0_r (length l1)), <- lookup_drop.
    exact (f_equal (fun l => l !! 0%nat) Ht).
  - replace (S (length l1)) with (length l1 + 1)%nat by lia.
    rewrite <- drop_drop.
    rewrite (f_equal (drop 1) Ht). apply map_annotate_NaN.
Qed.

Lemma nan_spreads_witness :
  let ps := [P "P3" 7 1;
             mkProcess "P2" (Num 2) (parseInt ".5") (Num 0) NEW
                       None None None None;
             P "P1" 0 4] in
  map (fun q => (id q, startTime q, completionTime q)) (simulateFCFS ps)
  = [("P1", Some (Num 0), Some (Num 4)); ("P2", Some (Num 4), Some NaN);
     ("P3", Some NaN, Some NaN)]
  /\ Forall (fun q => startTime q = Some NaN /\ completionTime q = Some NaN
                      /\ metricsBlock q = Bare NaN)
            (drop 2 (simulateFCFS ps)).
Proof.
  intros ps. split; [reflexivity|].
  apply (nan_spreads ps [P "P1" 0 4] [P "P3" 7 1]
           (mkProcess "P2" (Num 2) NaN (Num 0) NEW None None None None));
    [reflexivity|].
  by right.
Defined.
